(** * go-twitter v2: search options encoding, response decoding, stream rules

    A shallow embedding of [v2/tweet_search.go] and [v2/user_params.go].

    Go strings are byte strings and are modelled as [string]; [url.Values]
    and [http.Header] (both [map[string][]string]) as [gmap string (list string)];
    a nilable [error] or pointer as an [option]; Go's [int] as [Z].  The
    query component follows [net/url] as of Go 1.17, where a semicolon is no
    longer a separator. *)

From Stdlib Require Import ZArith Ascii String DecimalString.
From Stdlib Require DecimalZ.
From stdpp Require Import gmap strings list fin_maps sorting.

Set Warnings "-clear-no-such-hyp".

(** * The model *)

(** ** Go's [strings] package *)
Module strings.

(** [strings.Join(elems, sep)]. *)
Fixpoint Join (elems : list string) (sep : string) : string :=
  match elems with
  | [] => ""
  | [e] => e
  | e :: rest => e +:+ sep +:+ Join rest sep
  end.

(** [strings.Cut(s, sep)] for a one-byte separator: the text before the
    first [sep], the text after it, and whether [sep] occurs. *)
Fixpoint Cut (s : string) (sep : ascii) : string * string * bool :=
  match s with
  | "" => ("", "", false)
  | String c s' =>
      if Ascii.eqb c sep then ("", s', true)
      else let '(before, after, found) := Cut s' sep in
           (String c before, after, found)
  end.

(** [strings.Contains(s, sep)] for a one-byte [sep]. *)
Fixpoint Contains (s : string) (sep : ascii) : bool :=
  match s with
  | "" => false
  | String c s' => Ascii.eqb c sep || Contains s' sep
  end.

(** [strings.Split(s, sep)] for a one-byte separator. *)
Fixpoint Split (s : string) (sep : ascii) : list string :=
  match s with
  | "" => [""]
  | String c s' =>
      if Ascii.eqb c sep then "" :: Split s' sep
      else match Split s' sep with
           | [] => [String c ""]
           | x :: rest => String c x :: rest
           end
  end.

End strings.

(** ** Go's [net/url] package: the query component *)
Module url.

(** [url.Values], a [map[string][]string]. *)
Abbreviation Values := (gmap string (list string)).

(** [v[key]]: indexing a Go map yields the zero value (a nil slice) for an
    absent key. *)
Definition index (v : Values) (key : string) : list string :=
  default [] (v !! key).

(** [Values.Add]: [v[key] = append(v[key], value)]. *)
Definition Add (key value : string) (v : Values) : Values :=
  <[key := index v key ++ [value]]> v.

Definition byte_of (c : ascii) : N := N_of_ascii c.

(** [shouldEscape(c, encodeQueryComponent)]: only ASCII letters, digits and
    the marks [-_.~] stay as they are. *)
Definition shouldEscape (c : ascii) : bool :=
  let n := byte_of c in
  if ((97 <=? n) && (n <=? 122) || (65 <=? n) && (n <=? 90)
      || (48 <=? n) && (n <=? 57))%N then false
  else if ((n =? 45) || (n =? 95) || (n =? 46) || (n =? 126))%N then false
  else true.

(** ["0123456789ABCDEF"[n]] *)
Definition upperhex (n : N) : ascii :=
  if (n <? 10)%N then ascii_of_N (48 + n) else ascii_of_N (55 + n).

Definition ishex (c : ascii) : bool :=
  let n := byte_of c in
  ((48 <=? n) && (n <=? 57) || (97 <=? n) && (n <=? 102)
   || (65 <=? n) && (n <=? 70))%N.

Definition unhex (c : ascii) : N :=
  let n := byte_of c in
  if ((48 <=? n) && (n <=? 57))%N then n - 48
  else if ((97 <=? n) && (n <=? 102))%N then n - 97 + 10
  else if ((65 <=? n) && (n <=? 70))%N then n - 65 + 10
  else 0.

(** The bytes written for one input byte by [escape] in query-component
    mode: a space becomes [+], a byte that must be escaped becomes [%XX]. *)
Definition escape_byte (c : ascii) (rest : string) : string :=
  if Ascii.eqb c " " then String "+" rest
  else if shouldEscape c then
    String "%" (String (upperhex (N.shiftr (byte_of c) 4))
               (String (upperhex (N.land (byte_of c) 15)) rest))
  else String c rest.

(** [url.QueryEscape]. *)
Fixpoint QueryEscape (s : string) : string :=
  match s with
  | "" => ""
  | String c s' => escape_byte c (QueryEscape s')
  end.

(** [url.QueryUnescape]; [None] stands for the [EscapeError] returned when a
    [%] is not followed by two hexadecimal digits. *)
Fixpoint QueryUnescape (s : string) : option string :=
  match s with
  | "" => Some ""
  | String "%" (String a (String b rest)) =>
      if ishex a && ishex b then
        String (ascii_of_N (N.lor (N.shiftl (unhex a) 4) (unhex b)))
          <$> QueryUnescape rest
      else None
  | String "%" _ => None
  | String "+" rest => String " " <$> QueryUnescape rest
  | String c rest => String c <$> QueryUnescape rest
  end.

(** One turn of the loop of [parseQuery] on the segment [key] cut off the
    front of the query: a segment that holds a semicolon, is empty or does
    not unescape is skipped. *)
Definition parsePair (m : Values) (key : string) : Values :=
  if strings.Contains key ";" then m
  else if decide (key = "") then m
  else
    let '(key, value, _) := strings.Cut key "=" in
    match QueryUnescape key with
    | None => m
    | Some key =>
        match QueryUnescape value with
        | None => m
        | Some value => <[key := index m key ++ [value]]> m
        end
    end.

(** [parseQuery(m, query)]: [for query != "" { key, query, _ =
    strings.Cut(query, "&"); ... }].  The loop runs at most once per byte of
    [query], which bounds the [fuel]. *)
Fixpoint parseQuery (fuel : nat) (m : Values) (query : string) : Values :=
  match fuel with
  | O => m
  | S fuel =>
      if decide (query = "") then m
      else
        let '(key, query, _) := strings.Cut query "&" in
        parseQuery fuel (parsePair m key) query
  end.

(** [url.ParseQuery], with the error dropped as [URL.Query] does. *)
Definition ParseQuery (query : string) : Values :=
  parseQuery (String.length query) ∅ query.

(** [slices.Sorted(maps.Keys(v))]: the keys in increasing byte order. *)
Definition sortedKeys (v : Values) : list string :=
  merge_sort String.le (map_to_list v).*1.

(** The inner loop of [Values.Encode] for one key: every value of the key is
    written as [key=value], with [&] in front unless the buffer is empty. *)
Definition encodeKey (keyEscaped : string) (vs : list string) (buf : string)
  : string :=
  foldl (fun buf v =>
           (if decide (buf = "") then buf else buf +:+ "&")
             +:+ keyEscaped +:+ "=" +:+ QueryEscape v) buf vs.

(** [Values.Encode]. *)
Definition Encode (v : Values) : string :=
  if decide (size v = 0%nat) then ""
  else foldl (fun buf k => encodeKey (QueryEscape k) (index v k) buf)
         "" (sortedKeys v).

(** The part of [url.URL] the encoder reads and writes. *)
Record URL := mkURL { Path : string; RawQuery : string }.

(** [URL.Query]. *)
Definition Query (u : URL) : Values := ParseQuery (RawQuery u).

(** *** Notions for the facts about [Encode] and [ParseQuery] *)

(** The three bytes that structure a query. *)
Definition separator (c : ascii) : Prop :=
  c = "&"%char \/ c = "="%char \/ c = ";"%char.

(** What [Encode] writes for one key and value. *)
Definition renderPair (p : string * string) : string :=
  QueryEscape p.1 +:+ "=" +:+ QueryEscape p.2.

(** The pairs of a map in the order [Encode] visits them: by increasing
    key, the values of a key in their order. *)
Definition pairsOf (v : Values) (keys : list string)
  : list (string * string) :=
  keys ≫= fun k => pair k <$> index v k.

Definition pairs (v : Values) : list (string * string) :=
  pairsOf v (sortedKeys v).

(** Appending segments to a buffer as [Encode] does. *)
Definition extend (buf : string) (segs : list string) : string :=
  foldl (fun buf seg =>
           (if decide (buf = "") then buf else buf +:+ "&") +:+ seg)
    buf segs.

(** Adding a list of pairs, one [Add] each, in order. *)
Definition addPairs (m : Values) (ps : list (string * string)) : Values :=
  foldl (fun m p => Add p.1 p.2 m) m ps.

(** Every key of the map has at least one value, as in every map that
    [ParseQuery] and [Add] build. *)
Definition populated (v : Values) : Prop :=
  forall k vs, v !! k = Some vs -> vs <> [].

End url.

(** ** Go's [net/http], [time] and [strconv]: the parts the encoder uses *)
Module http.

(** [http.Request]: the method and the URL; [addQuery] writes
    [req.URL.RawQuery] only. *)
Record Request := mkRequest { Method : string; URL : url.URL }.

(** [http.Header], a [map[string][]string]. *)
Abbreviation Header := (gmap string (list string)).

(** [http.StatusOK] *)
Definition StatusOK : Z := 200.

End http.

Module time.

(** A [time.Time] instant: seconds and nanoseconds since January 1, year 1,
    00:00:00 UTC, and the offset of its location. *)
Record Time := mkTime { sec : Z; nsec : Z; offset : Z }.

(** [Time.IsZero]: the instant is January 1, year 1, 00:00:00 UTC. *)
Definition IsZero (t : Time) : bool := (sec t =? 0)%Z && (nsec t =? 0)%Z.

End time.

Module strconv.

(** [strconv.Itoa]: the decimal form, with a leading [-] when negative. *)
Definition Itoa (i : Z) : string := NilZero.string_of_int (Z.to_int i).

End strconv.

(** ** The string-valued lookups of the other files of the package

    The expansion and field enumerations and the RFC 3339 formatter are not
    part of the two files embedded here; they are taken as parameters. *)

Class Lookups := {
  Expansion : Type;
  MediaField : Type;
  PlaceField : Type;
  PollField : Type;
  TweetField : Type;
  UserField : Type;
  (** the conversion [string(x)] of each enumeration *)
  expansionString : Expansion -> string;
  mediaFieldString : MediaField -> string;
  placeFieldString : PlaceField -> string;
  pollFieldString : PollField -> string;
  tweetFieldString : TweetField -> string;
  userFieldString : UserField -> string;
  (** [t.Format(time.RFC3339)] *)
  FormatRFC3339 : time.Time -> string
}.

(** ** The option encoder *)
Section Encoder.
Context {L : Lookups}.

(** Modelled from the spec: [expansionStringArray] and its five siblings are
    defined in another file of the package; the spec treats the enumerations
    as opaque string-producing lookups, so each helper yields the string
    form of every element, in order. *)
Definition expansionStringArray (arr : list Expansion) : list string :=
  expansionString <$> arr.
Definition mediaFieldStringArray (arr : list MediaField) : list string :=
  mediaFieldString <$> arr.
Definition placeFieldStringArray (arr : list PlaceField) : list string :=
  placeFieldString <$> arr.
Definition pollFieldStringArray (arr : list PollField) : list string :=
  pollFieldString <$> arr.
Definition tweetFieldStringArray (arr : list TweetField) : list string :=
  tweetFieldString <$> arr.
Definition userFieldStringArray (arr : list UserField) : list string :=
  userFieldString <$> arr.

(** [type TweetSearchSortOrder string] *)
Definition TweetSearchSortOrder := string.
Definition TweetSearchSortOrderRecency : TweetSearchSortOrder := "recency".
Definition TweetSearchSortOrderRelevancy : TweetSearchSortOrder := "relevancy".

Record TweetRecentSearchOpts := mkTweetRecentSearchOpts {
  Expansions : list Expansion;
  MediaFields : list MediaField;
  PlaceFields : list PlaceField;
  PollFields : list PollField;
  TweetFields : list TweetField;
  UserFields : list UserField;
  StartTime : time.Time;
  EndTime : time.Time;
  SortOrder : TweetSearchSortOrder;
  MaxResults : Z;
  NextToken : string;
  SinceID : string;
  UntilID : string
}.

(** [req.URL.RawQuery = raw] *)
Definition setRawQuery (req : http.Request) (raw : string) : http.Request :=
  http.mkRequest (http.Method req)
    (url.mkURL (url.Path (http.URL req)) raw).

(** [TweetRecentSearchOpts.addQuery]; the request is passed in and the
    request as the method leaves it is returned. *)
Definition addQuery (t : TweetRecentSearchOpts) (req : http.Request)
  : http.Request :=
  let q := url.Query (http.URL req) in
  let q := if (0 <? length (Expansions t))%nat
           then url.Add "expansions"
                  (strings.Join (expansionStringArray (Expansions t)) ",") q
           else q in
  let q := if (0 <? length (MediaFields t))%nat
           then url.Add "media.fields"
                  (strings.Join (mediaFieldStringArray (MediaFields t)) ",") q
           else q in
  let q := if (0 <? length (PlaceFields t))%nat
           then url.Add "place.fields"
                  (strings.Join (placeFieldStringArray (PlaceFields t)) ",") q
           else q in
  let q := if (0 <? length (PollFields t))%nat
           then url.Add "poll.fields"
                  (strings.Join (pollFieldStringArray (PollFields t)) ",") q
           else q in
  let q := if (0 <? length (TweetFields t))%nat
           then url.Add "tweet.fields"
                  (strings.Join (tweetFieldStringArray (TweetFields t)) ",") q
           else q in
  let q := if (0 <? length (UserFields t))%nat
           then url.Add "user.fields"
                  (strings.Join (userFieldStringArray (UserFields t)) ",") q
           else q in
  let q := if negb (time.IsZero (StartTime t))
           then url.Add "start_time" (FormatRFC3339 (StartTime t)) q
           else q in
  let q := if negb (time.IsZero (EndTime t))
           then url.Add "end_time" (FormatRFC3339 (EndTime t)) q
           else q in
  let q := if (0 <? MaxResults t)%Z
           then url.Add "max_results" (strconv.Itoa (MaxResults t)) q
           else q in
  let q := if (0 <? String.length (NextToken t))%nat
           then url.Add "next_token" (NextToken t) q
           else q in
  let q := if (0 <? String.length (SinceID t))%nat
           then url.Add "since_id" (SinceID t) q
           else q in
  let q := if (0 <? String.length (UntilID t))%nat
           then url.Add "until_id" (UntilID t) q
           else q in
  let q := if (0 <? String.length (SortOrder t))%nat
           then url.Add "sort_order" (SortOrder t) q
           else q in
  if (0 <? size q)%nat then setRawQuery req (url.Encode q) else req.

(** [TweetSearchOpts] has the fields of [TweetRecentSearchOpts] and its
    [addQuery] has the same body. *)
Record TweetSearchOpts := mkTweetSearchOpts {
  fExpansions : list Expansion;
  fMediaFields : list MediaField;
  fPlaceFields : list PlaceField;
  fPollFields : list PollField;
  fTweetFields : list TweetField;
  fUserFields : list UserField;
  fStartTime : time.Time;
  fEndTime : time.Time;
  fSortOrder : TweetSearchSortOrder;
  fMaxResults : Z;
  fNextToken : string;
  fSinceID : string;
  fUntilID : string
}.

(** [TweetSearchOpts.addQuery] *)
Definition addQuery_full (t : TweetSearchOpts) (req : http.Request)
  : http.Request :=
  let q := url.Query (http.URL req) in
  let q := if (0 <? length (fExpansions t))%nat
           then url.Add "expansions"
                  (strings.Join (expansionStringArray (fExpansions t)) ",") q
           else q in
  let q := if (0 <? length (fMediaFields t))%nat
           then url.Add "media.fields"
                  (strings.Join (mediaFieldStringArray (fMediaFields t)) ",") q
           else q in
  let q := if (0 <? length (fPlaceFields t))%nat
           then url.Add "place.fields"
                  (strings.Join (placeFieldStringArray (fPlaceFields t)) ",") q
           else q in
  let q := if (0 <? length (fPollFields t))%nat
           then url.Add "poll.fields"
                  (strings.Join (pollFieldStringArray (fPollFields t)) ",") q
           else q in
  let q := if (0 <? length (fTweetFields t))%nat
           then url.Add "tweet.fields"
                  (strings.Join (tweetFieldStringArray (fTweetFields t)) ",") q
           else q in
  let q := if (0 <? length (fUserFields t))%nat
           then url.Add "user.fields"
                  (strings.Join (userFieldStringArray (fUserFields t)) ",") q
           else q in
  let q := if negb (time.IsZero (fStartTime t))
           then url.Add "start_time" (FormatRFC3339 (fStartTime t)) q
           else q in
  let q := if negb (time.IsZero (fEndTime t))
           then url.Add "end_time" (FormatRFC3339 (fEndTime t)) q
           else q in
  let q := if (0 <? fMaxResults t)%Z
           then url.Add "max_results" (strconv.Itoa (fMaxResults t)) q
           else q in
  let q := if (0 <? String.length (fNextToken t))%nat
           then url.Add "next_token" (fNextToken t) q
           else q in
  let q := if (0 <? String.length (fSinceID t))%nat
           then url.Add "since_id" (fSinceID t) q
           else q in
  let q := if (0 <? String.length (fUntilID t))%nat
           then url.Add "until_id" (fUntilID t) q
           else q in
  let q := if (0 <? String.length (fSortOrder t))%nat
           then url.Add "sort_order" (fSortOrder t) q
           else q in
  if (0 <? size q)%nat then setRawQuery req (url.Encode q) else req.

(** [UserLookupOpts] of [user_params.go] *)
Record UserLookupOpts := mkUserLookupOpts {
  uExpansions : list Expansion;
  uTweetFields : list TweetField;
  uUserFields : list UserField
}.

(** [UserLookupOpts.addQuery] *)
Definition addQuery_user (u : UserLookupOpts) (req : http.Request)
  : http.Request :=
  let q := url.Query (http.URL req) in
  let q := if (0 <? length (uExpansions u))%nat
           then url.Add "expansions"
                  (strings.Join (expansionStringArray (uExpansions u)) ",") q
           else q in
  let q := if (0 <? length (uTweetFields u))%nat
           then url.Add "tweet.fields"
                  (strings.Join (tweetFieldStringArray (uTweetFields u)) ",") q
           else q in
  let q := if (0 <? length (uUserFields u))%nat
           then url.Add "user.fields"
                  (strings.Join (userFieldStringArray (uUserFields u)) ",") q
           else q in
  if (0 <? size q)%nat then setRawQuery req (url.Encode q) else req.

(** *** Notions for the facts about the three methods *)
Import strings url.

(** The pair a guarded [q.Add(k, v)] adds. *)
Definition emit (c : bool) (k v : string) : list (string * string) :=
  if c then [(k, v)] else [].

(** The tail of every [addQuery]: the pairs [ps] are added to the query of
    the request, and the result is written back unless it is empty. *)
Definition writeBack (req : http.Request) (q : Values) : http.Request :=
  if (0 <? size q)%nat then setRawQuery req (Encode q) else req.

Definition mergeQuery (ps : list (string * string)) (req : http.Request)
  : http.Request :=
  writeBack req (addPairs (Query (http.URL req)) ps).

(** The pairs [TweetRecentSearchOpts.addQuery] adds, in the order of its
    [if] statements. *)
Definition emitted (t : TweetRecentSearchOpts) : list (string * string) :=
  emit (0 <? length (Expansions t))%nat "expansions"
    (Join (expansionStringArray (Expansions t)) ",")
  ++ emit (0 <? length (MediaFields t))%nat "media.fields"
       (Join (mediaFieldStringArray (MediaFields t)) ",")
  ++ emit (0 <? length (PlaceFields t))%nat "place.fields"
       (Join (placeFieldStringArray (PlaceFields t)) ",")
  ++ emit (0 <? length (PollFields t))%nat "poll.fields"
       (Join (pollFieldStringArray (PollFields t)) ",")
  ++ emit (0 <? length (TweetFields t))%nat "tweet.fields"
       (Join (tweetFieldStringArray (TweetFields t)) ",")
  ++ emit (0 <? length (UserFields t))%nat "user.fields"
       (Join (userFieldStringArray (UserFields t)) ",")
  ++ emit (negb (time.IsZero (StartTime t))) "start_time"
       (FormatRFC3339 (StartTime t))
  ++ emit (negb (time.IsZero (EndTime t))) "end_time"
       (FormatRFC3339 (EndTime t))
  ++ emit (0 <? MaxResults t)%Z "max_results" (strconv.Itoa (MaxResults t))
  ++ emit (0 <? String.length (NextToken t))%nat "next_token" (NextToken t)
  ++ emit (0 <? String.length (SinceID t))%nat "since_id" (SinceID t)
  ++ emit (0 <? String.length (UntilID t))%nat "until_id" (UntilID t)
  ++ emit (0 <? String.length (SortOrder t))%nat "sort_order" (SortOrder t).

(** The pairs [UserLookupOpts.addQuery] adds. *)
Definition emitted_user (u : UserLookupOpts) : list (string * string) :=
  emit (0 <? length (uExpansions u))%nat "expansions"
    (Join (expansionStringArray (uExpansions u)) ",")
  ++ emit (0 <? length (uTweetFields u))%nat "tweet.fields"
       (Join (tweetFieldStringArray (uTweetFields u)) ",")
  ++ emit (0 <? length (uUserFields u))%nat "user.fields"
       (Join (userFieldStringArray (uUserFields u)) ",").

(** A [TweetSearchOpts] read as a [TweetRecentSearchOpts], field by field. *)
Definition asRecent (t : TweetSearchOpts) : TweetRecentSearchOpts :=
  mkTweetRecentSearchOpts (fExpansions t) (fMediaFields t) (fPlaceFields t)
    (fPollFields t) (fTweetFields t) (fUserFields t) (fStartTime t)
    (fEndTime t) (fSortOrder t) (fMaxResults t) (fNextToken t) (fSinceID t)
    (fUntilID t).

(** The values a list of pairs holds for a key, in order. *)
Definition valuesOf (k : string) (ps : list (string * string)) : list string :=
  (filter (fun p => p.1 = k) ps).*2.

(** The table of an options value: every documented key with the value of
    its field, or [None] when the field has the zero value of its type. *)

Definition ifNonEmptyList {A} (l : list A) (v : string) : option string :=
  match l with [] => None | _ :: _ => Some v end.

Definition ifNonEmpty (s v : string) : option string :=
  match s with "" => None | String _ _ => Some v end.

Definition ifNonZeroTime (t : time.Time) (v : string) : option string :=
  if time.IsZero t then None else Some v.

Definition ifPositive (n : Z) (v : string) : option string :=
  if decide (0 < n)%Z then Some v else None.

Definition documented (t : TweetRecentSearchOpts)
  : list (string * option string) :=
  [ ("expansions",
      ifNonEmptyList (Expansions t)
        (Join (expansionString <$> Expansions t) ","));
    ("media.fields",
      ifNonEmptyList (MediaFields t)
        (Join (mediaFieldString <$> MediaFields t) ","));
    ("place.fields",
      ifNonEmptyList (PlaceFields t)
        (Join (placeFieldString <$> PlaceFields t) ","));
    ("poll.fields",
      ifNonEmptyList (PollFields t)
        (Join (pollFieldString <$> PollFields t) ","));
    ("tweet.fields",
      ifNonEmptyList (TweetFields t)
        (Join (tweetFieldString <$> TweetFields t) ","));
    ("user.fields",
      ifNonEmptyList (UserFields t)
        (Join (userFieldString <$> UserFields t) ","));
    ("start_time",
      ifNonZeroTime (StartTime t) (FormatRFC3339 (StartTime t)));
    ("end_time", ifNonZeroTime (EndTime t) (FormatRFC3339 (EndTime t)));
    ("max_results", ifPositive (MaxResults t) (strconv.Itoa (MaxResults t)));
    ("next_token", ifNonEmpty (NextToken t) (NextToken t));
    ("since_id", ifNonEmpty (SinceID t) (SinceID t));
    ("until_id", ifNonEmpty (UntilID t) (UntilID t));
    ("sort_order", ifNonEmpty (SortOrder t) (SortOrder t)) ].

Definition documented_user (u : UserLookupOpts)
  : list (string * option string) :=
  [ ("expansions",
      ifNonEmptyList (uExpansions u)
        (Join (expansionString <$> uExpansions u) ","));
    ("tweet.fields",
      ifNonEmptyList (uTweetFields u)
        (Join (tweetFieldString <$> uTweetFields u) ","));
    ("user.fields",
      ifNonEmptyList (uUserFields u)
        (Join (userFieldString <$> uUserFields u) ",")) ].

(** The pairs of the entries of a table that have a value. *)
Definition pairsOfTable (tbl : list (string * option string))
  : list (string * string) :=
  omap (fun e => pair e.1 <$> e.2) tbl.

(** An entry of a table read against a query before and after the method:
    the value of the entry, if any, is appended under its key. *)
Definition appended (before after : Values) (e : string * option string)
  : Prop :=
  index after e.1 = index before e.1 ++ option_list e.2.

(** An entry read against the query of a request that had none: the key
    has the value of the entry as its only value, or is absent. *)
Definition emittedOnce (after : Values) (e : string * option string) : Prop :=
  after !! e.1 = (fun v => [v]) <$> e.2.

(** Every field has the zero value of its type. *)
Definition zeroValued (t : TweetRecentSearchOpts) : Prop :=
  Expansions t = [] /\ MediaFields t = [] /\ PlaceFields t = []
  /\ PollFields t = [] /\ TweetFields t = [] /\ UserFields t = []
  /\ time.IsZero (StartTime t) = true /\ time.IsZero (EndTime t) = true
  /\ SortOrder t = "" /\ MaxResults t = 0%Z /\ NextToken t = ""
  /\ SinceID t = "" /\ UntilID t = "".

Definition zeroValued_user (u : UserLookupOpts) : Prop :=
  uExpansions u = [] /\ uTweetFields u = [] /\ uUserFields u = [].

(** The query of a request, parsed: [req.URL.Query()]. *)
Definition queryOf (req : http.Request) : Values := Query (http.URL req).

(** A request whose URL has no query. *)
Definition freshRequest (method path : string) : http.Request :=
  http.mkRequest method (mkURL path "").

(** The collection-valued fields of the search options: the key and the
    string forms of the elements, in the order of the field. *)
Definition collections (t : TweetRecentSearchOpts)
  : list (string * list string) :=
  [ ("expansions", expansionString <$> Expansions t);
    ("media.fields", mediaFieldString <$> MediaFields t);
    ("place.fields", placeFieldString <$> PlaceFields t);
    ("poll.fields", pollFieldString <$> PollFields t);
    ("tweet.fields", tweetFieldString <$> TweetFields t);
    ("user.fields", userFieldString <$> UserFields t) ].

Definition collections_user (u : UserLookupOpts)
  : list (string * list string) :=
  [ ("expansions", expansionString <$> uExpansions u);
    ("tweet.fields", tweetFieldString <$> uTweetFields u);
    ("user.fields", userFieldString <$> uUserFields u) ].

(** A non-empty collection is appended under its key as one value, the
    string forms joined with a comma. *)
Definition joined (before after : Values) (e : string * list string) : Prop :=
  e.2 <> [] -> index after e.1 = index before e.1 ++ [Join e.2 ","].

End Encoder.

(** ** Errors and rate limits *)

(** Modelled from the spec: [RateLimit] is declared in another file of the
    package; the spec gives each quota window a limit, a remaining count and a
    reset time. *)
Record RateLimit := mkRateLimit { Limit : Z; Remaining : Z; Reset : Z }.

(** The payload types of the platform are declared in other files of the
    package and are taken as parameters: [TweetRaw], and the fields of
    [ErrorResponse] that hold the error detail of the platform, with the
    values [TweetRaw{}] and [ErrorResponse{}] give them. *)
Class Payloads := {
  TweetRaw : Type;
  zeroTweetRaw : TweetRaw;
  ErrorDetail : Type;
  zeroErrorDetail : ErrorDetail
}.

(** Modelled from the spec: [HTTPError] is declared in another file of the
    package; it is the minimal error, with the status code and the rate
    limits that [Build] gives it. *)
Record HTTPError := mkHTTPError {
  heStatusCode : Z;
  heRateLimit : option RateLimit;
  heDailyAppRateLimit : option RateLimit;
  heDailyUserRateLimit : option RateLimit
}.

Section Package.
Context {P : Payloads}.

(** Modelled from the spec: [ErrorResponse] is declared in another file of
    the package; it is the structured error envelope: the detail decoded from
    the body, and the status code and the three rate limits that [Build]
    writes. *)
Record ErrorResponse := mkErrorResponse {
  erStatusCode : Z;
  erDetail : ErrorDetail;
  erRateLimit : option RateLimit;
  erDailyAppRateLimit : option RateLimit;
  erDailyUserRateLimit : option RateLimit
}.

(** The values of Go's [error] interface that the two files produce. *)
Inductive error :=
  (** the sentinel [ErrParameter] *)
  | ErrParameter
  (** [fmt.Errorf(text + "%w", wrapped)] *)
  | Errorf (text : string) (wrapped : error)
  (** an error made by [io] or [encoding/json] *)
  | LibraryError (msg : string)
  (** [&HTTPError{...}] *)
  | HTTPError_ (e : HTTPError)
  (** [*ErrorResponse] *)
  | ErrorResponse_ (e : ErrorResponse)
  (** [&ResponseDecodeError{Name, Err, RateLimit}] *)
  | ResponseDecodeError (Name : string) (Err : error)
      (rateLimit : option RateLimit).

(** [errors.Is(err, ErrParameter)]: the chain of wrapped errors reaches the
    sentinel. *)
Fixpoint IsErrParameter (err : error) : bool :=
  match err with
  | ErrParameter => true
  | Errorf _ wrapped => IsErrParameter wrapped
  | _ => false
  end.

(** ** Stream rules *)

Record TweetSearchStreamRule := mkTweetSearchStreamRule {
  Value : string;
  Tag : string
}.

(** [TweetSearchStreamRule.validate] *)
Definition validate (t : TweetSearchStreamRule) : option error :=
  if (String.length (Value t) =? 0)%nat then
    Some (Errorf "tweet search stream rule value is required: " ErrParameter)
  else None.

(** [tweetSearchStreamRules.validate] *)
Fixpoint validate_rules (t : list TweetSearchStreamRule) : option error :=
  match t with
  | [] => None
  | rule :: t' =>
      match validate rule with
      | Some err => Some err
      | None => validate_rules t'
      end
  end.

(** [type TweetSearchStreamRuleID string] *)
Definition TweetSearchStreamRuleID := string.

(** [TweetSearchStreamRuleID.validate] *)
Definition validate_id (t : TweetSearchStreamRuleID) : option error :=
  if (String.length t =? 0)%nat then
    Some (Errorf "tweet search rule id is required " ErrParameter)
  else None.

(** [tweetSearchStreamRuleIDs.validate] *)
Fixpoint validate_ids (t : list TweetSearchStreamRuleID) : option error :=
  match t with
  | [] => None
  | id :: t' =>
      match validate_id id with
      | Some err => Some err
      | None => validate_ids t'
      end
  end.

(** The loop [for i, id := range t { ids[i] = string(id) }] from index [i]
    on. *)
Fixpoint toStringArray_range (i : nat) (t : list TweetSearchStreamRuleID)
    (ids : list string) : list string :=
  match t with
  | [] => ids
  | id :: t' => toStringArray_range (S i) t' (<[i := id]> ids)
  end.

(** [tweetSearchStreamRuleIDs.toStringArray]: [ids := make([]string, len(t))]
    and then the loop. *)
Definition toStringArray (t : list TweetSearchStreamRuleID) : list string :=
  toStringArray_range 0 t (replicate (length t) "").

(** ** The response decoder *)

(** An [Reader] as [ReadAll] sees it: the bytes it yields, and the
    error, if any, that ends the reading. *)
Record Reader := mkReader { content : list Byte.byte; failure : option error }.

(** [ReadAll] *)
Definition ReadAll (r : Reader) : list Byte.byte * option error :=
  (content r, failure r).

Record TweetRecentSearchMeta := mkTweetRecentSearchMeta {
  NewestID : string;
  OldestID : string;
  ResultCount : Z;
  metaNextToken : string
}.

Record TweetRecentSearchResponse := mkTweetRecentSearchResponse {
  Raw : option TweetRaw;
  Meta : option TweetRecentSearchMeta;
  respRateLimit : option RateLimit
}.

(** The JSON decoder at the three types it is used at belongs to
    [encoding/json], the three header readers to another file of the
    package.  [json.Unmarshal(data, v)] takes the value [v] points to and
    yields the value left there and the error.

    The response handed to the second pass holds in its field [RateLimit]
    the pointer [rl] that [Build] also puts into the error it returns after
    that pass.  The field is exported and has no json tag, and
    [json.Unmarshal] decodes through a pointer that is not nil, so the call
    can write the object [rl] points to.  The second pass therefore yields,
    between the response and the error, what it does to that shared
    object. *)
Variable unmarshalErrorResponse :
  list Byte.byte -> ErrorResponse -> ErrorResponse * option error.
Variable unmarshalTweetRaw :
  list Byte.byte -> TweetRaw -> TweetRaw * option error.
Variable unmarshalTweetRecentSearchResponse :
  list Byte.byte -> TweetRecentSearchResponse ->
  TweetRecentSearchResponse * (RateLimit -> RateLimit) * option error.
Variables rateFromHeader dailyAppRateFromHeader dailyUserRateFromHeader :
  http.Header -> option RateLimit.

(** [TweetRecentSearchAsyncResponse.Build].  A rate limit in a value that
    is returned stands for the object its pointer points to as it is when
    [Build] returns, [None] for a nil pointer. *)
Definition Build (statusCode : Z) (headers : http.Header) (body : Reader)
  : option TweetRecentSearchResponse * option error :=
  let '(buffer, err) := ReadAll body in
  match err with
  | Some err =>
      (None, Some (Errorf "tweet recent search response read: " err))
  | None =>
      let rl := rateFromHeader headers in
      let darl := dailyAppRateFromHeader headers in
      let durl := dailyUserRateFromHeader headers in
      if negb (statusCode =? http.StatusOK)%Z then
        let e := mkErrorResponse 0 zeroErrorDetail None None None in
        let '(e, err) := unmarshalErrorResponse buffer e in
        match err with
        | Some _ =>
            (None, Some (HTTPError_ (mkHTTPError statusCode rl darl durl)))
        | None =>
            let e := mkErrorResponse statusCode (erDetail e) rl darl durl in
            (None, Some (ErrorResponse_ e))
        end
      else
        let recentSearch :=
          mkTweetRecentSearchResponse (Some zeroTweetRaw)
            (Some (mkTweetRecentSearchMeta "" "" 0 "")) rl in
        let '(raw, err) := unmarshalTweetRaw buffer zeroTweetRaw in
        match err with
        | Some err =>
            (None, Some (ResponseDecodeError "tweet recent search" err rl))
        | None =>
            let recentSearch :=
              mkTweetRecentSearchResponse (Some raw) (Meta recentSearch)
                (respRateLimit recentSearch) in
            let '(recentSearch, write, err) :=
              unmarshalTweetRecentSearchResponse buffer recentSearch in
            let rl := write <$> rl in
            match err with
            | Some err =>
                (None, Some (ResponseDecodeError "tweet recent search" err rl))
            | None => (Some recentSearch, None)
            end
        end
  end.

End Package.

(** ** Concrete lookups, options, requests and decoders for the examples *)

(** [Time.Format(time.RFC3339)] for the instants of the years 0001 to 9999:
    the civil date of the local instant, then [Z] for a zero offset and
    [+hh:mm] or [-hh:mm] otherwise. *)
Module rfc3339.

Definition digit (n : Z) : ascii := ascii_of_N (48 + Z.to_N n).

Definition pad2 (n : Z) (rest : string) : string :=
  String (digit (n / 10 mod 10)) (String (digit (n mod 10)) rest).

Definition pad4 (n : Z) (rest : string) : string :=
  pad2 (n / 100) (pad2 n rest).

(** year, month and day of the day number [days] counted from
    January 1, year 1 *)
Definition civil (days : Z) : Z * Z * Z :=
  let z := (days + 306)%Z in
  let era := (z / 146097)%Z in
  let doe := (z mod 146097)%Z in
  let yoe := ((doe - doe / 1460 + doe / 36524 - doe / 146096) / 365)%Z in
  let doy := (doe - (365 * yoe + yoe / 4 - yoe / 100))%Z in
  let mp := ((5 * doy + 2) / 153)%Z in
  let d := (doy - (153 * mp + 2) / 5 + 1)%Z in
  let m := (if mp <? 10 then mp + 3 else mp - 9)%Z in
  let y := (yoe + era * 400 + (if m <=? 2 then 1 else 0))%Z in
  (y, m, d).

Definition zone (offset : Z) : string :=
  if (offset =? 0)%Z then "Z"
  else
    let minutes := Z.quot offset 60 in
    String (if (minutes <? 0)%Z then "-" else "+")%char
      (pad2 (Z.abs minutes / 60) (String ":" (pad2 (Z.abs minutes mod 60) ""))).

Definition format (t : time.Time) : string :=
  let abs := (time.sec t + time.offset t)%Z in
  let '(y, m, d) := civil (abs / 86400) in
  let s := (abs mod 86400)%Z in
  pad4 y (String "-" (pad2 m (String "-" (pad2 d (String "T"
    (pad2 (s / 3600) (String ":" (pad2 (s / 60 mod 60) (String ":"
      (pad2 (s mod 60) (zone (time.offset t)))))))))))).

End rfc3339.

(** The lookups with every enumeration a plain string, as a declaration
    [type X string] makes it. *)
Definition stringLookups : Lookups := {|
  Expansion := string; MediaField := string; PlaceField := string;
  PollField := string; TweetField := string; UserField := string;
  expansionString := id; mediaFieldString := id; placeFieldString := id;
  pollFieldString := id; tweetFieldString := id; userFieldString := id;
  FormatRFC3339 := rfc3339.format
|}.

(** The instant [time.Time{}]. *)
Definition zeroTime : time.Time := time.mkTime 0 0 0.

(** Search options with only [NextToken] set. *)
Definition onlyNextToken (token : string) : TweetRecentSearchOpts :=
  mkTweetRecentSearchOpts (L := stringLookups) [] [] [] [] [] []
    zeroTime zeroTime "" 0 token "" "".

(** [TweetRecentSearchOpts{}] *)
Definition zeroOpts : TweetRecentSearchOpts :=
  mkTweetRecentSearchOpts (L := stringLookups) [] [] [] [] [] []
    zeroTime zeroTime "" 0 "" "" "".

(** [TweetSearchOpts{}] and [UserLookupOpts{}] *)
Definition zeroFullOpts : TweetSearchOpts :=
  mkTweetSearchOpts (L := stringLookups) [] [] [] [] [] []
    zeroTime zeroTime "" 0 "" "" "".

Definition zeroUserOpts : UserLookupOpts :=
  mkUserLookupOpts (L := stringLookups) [] [] [].

(** Search options that ask for two expansions and a sort order outside the
    two enumerants. *)
Definition sampleOpts : TweetRecentSearchOpts :=
  mkTweetRecentSearchOpts (L := stringLookups) ["author_id"; "geo.place_id"]
    [] [] [] [] [] zeroTime zeroTime "oldest first" 0 "" "" "".

Definition sampleFullOpts : TweetSearchOpts :=
  mkTweetSearchOpts (L := stringLookups) [] [] [] [] [] []
    zeroTime zeroTime "oldest first" 0 "" "" "".

(** A request that already carries two parameters. *)
Definition sampleRequest : http.Request :=
  http.mkRequest "GET" (url.mkURL "/2/tweets/search/recent" "b=1&a=2").

(** Payloads for the examples: the raw tweets are kept as the bytes of the
    body, the error detail as its title. *)
Definition samplePayloads : Payloads := {|
  TweetRaw := list Byte.byte;
  zeroTweetRaw := [];
  ErrorDetail := string;
  zeroErrorDetail := ""
|}.

(** A decoder for the examples: a body decodes when it starts with an
    opening brace, to the value given, and fails otherwise. *)
Definition sampleUnmarshal {A} (decoded : A) (data : list Byte.byte) (v : A)
  : A * option (error (P := samplePayloads)) :=
  match data with
  | Byte.x7b :: _ => (decoded, None)
  | _ => (v, Some (LibraryError "invalid character looking for beginning of value"))
  end.

(** The second pass of the examples rejects every body and writes
    nothing. *)
Definition sampleUnmarshalResponse (data : list Byte.byte)
    (v : TweetRecentSearchResponse (P := samplePayloads))
  : TweetRecentSearchResponse (P := samplePayloads)
    * (RateLimit -> RateLimit) * option (error (P := samplePayloads)) :=
  (v, id,
   Some (LibraryError "json: cannot unmarshal number into Go struct field")).

(** A header reader for the examples: a fixed reading when the header is
    present. *)
Definition sampleRate (name : string) (headers : http.Header)
  : option RateLimit :=
  match headers !! name with
  | Some (_ :: _) => Some (mkRateLimit 450 449 1700000000)
  | _ => None
  end.

Definition sampleHeaders : http.Header :=
  {[ "X-Rate-Limit-Limit" := ["450"] ]}.

Definition sampleError : ErrorResponse (P := samplePayloads) :=
  mkErrorResponse (P := samplePayloads) 0 "Unauthorized" None None None.

Definition sampleBuild :=
  Build (P := samplePayloads)
    (sampleUnmarshal sampleError)
    (sampleUnmarshal ([Byte.x7b; Byte.x7d] : TweetRaw (Payloads := samplePayloads)))
    sampleUnmarshalResponse
    (sampleRate "X-Rate-Limit-Limit")
    (sampleRate "X-App-Limit-24hour-Limit")
    (sampleRate "X-User-Limit-24hour-Limit").

(** ** Further notions for the facts about the package *)
Section Wire.
Context {L : Lookups}.
Import strings url.

(** The keys the search options write, and those the user-lookup options
    write. *)
Definition searchKeys : list string :=
  [ "expansions"; "media.fields"; "place.fields"; "poll.fields";
    "tweet.fields"; "user.fields"; "start_time"; "end_time"; "max_results";
    "next_token"; "since_id"; "until_id"; "sort_order" ].

Definition userKeys : list string :=
  [ "expansions"; "tweet.fields"; "user.fields" ].

(** The table of the search options with its keys in increasing byte order,
    the order in which [Encode] writes them. *)
Definition documented_sorted (t : TweetRecentSearchOpts)
  : list (string * option string) :=
  [ ("end_time", ifNonZeroTime (EndTime t) (FormatRFC3339 (EndTime t)));
    ("expansions",
      ifNonEmptyList (Expansions t)
        (Join (expansionString <$> Expansions t) ","));
    ("max_results", ifPositive (MaxResults t) (strconv.Itoa (MaxResults t)));
    ("media.fields",
      ifNonEmptyList (MediaFields t)
        (Join (mediaFieldString <$> MediaFields t) ","));
    ("next_token", ifNonEmpty (NextToken t) (NextToken t));
    ("place.fields",
      ifNonEmptyList (PlaceFields t)
        (Join (placeFieldString <$> PlaceFields t) ","));
    ("poll.fields",
      ifNonEmptyList (PollFields t)
        (Join (pollFieldString <$> PollFields t) ","));
    ("since_id", ifNonEmpty (SinceID t) (SinceID t));
    ("sort_order", ifNonEmpty (SortOrder t) (SortOrder t));
    ("start_time",
      ifNonZeroTime (StartTime t) (FormatRFC3339 (StartTime t)));
    ("tweet.fields",
      ifNonEmptyList (TweetFields t)
        (Join (tweetFieldString <$> TweetFields t) ","));
    ("until_id", ifNonEmpty (UntilID t) (UntilID t));
    ("user.fields",
      ifNonEmptyList (UserFields t)
        (Join (userFieldString <$> UserFields t) ",")) ].

(** The query string of a table: for every entry that has a value, in the
    order of the table, the key as it is, [=] and the escaped value, with
    [&] between the entries. *)
Definition wireForm (tbl : list (string * option string)) : string :=
  Join ((fun p => p.1 +:+ "=" +:+ QueryEscape p.2) <$> pairsOfTable tbl) "&".

End Wire.

(** The loop of [toStringArray] with the bounds check Go makes at
    [ids[i] = ...]; [None] stands for the panic of an index out of range. *)
Fixpoint toStringArray_range_checked (i : nat)
    (t : list TweetSearchStreamRuleID) (ids : list string)
  : option (list string) :=
  match t with
  | [] => Some ids
  | id :: t' =>
      if decide (i < length ids)%nat
      then toStringArray_range_checked (S i) t' (<[i := id]> ids)
      else None
  end.

Definition toStringArray_checked (t : list TweetSearchStreamRuleID)
  : option (list string) :=
  toStringArray_range_checked 0 t (replicate (length t) "").

(** A second pass for the examples that accepts every body: it fills the
    metadata and leaves the other fields as they are. *)
Definition sampleUnmarshalMeta (data : list Byte.byte)
    (v : TweetRecentSearchResponse (P := samplePayloads))
  : TweetRecentSearchResponse (P := samplePayloads)
    * (RateLimit -> RateLimit) * option (error (P := samplePayloads)) :=
  (mkTweetRecentSearchResponse (Raw v)
     (Some (mkTweetRecentSearchMeta "1460" "1450" 10 "b26v89c19zqg8o3f"))
     (respRateLimit v), id, None).

(** The body [{ratelimit:{limit:7},meta:3}], its keys quoted: a rate limit
    object under the name of the untagged field, and a number where the
    metadata object belongs. *)
Definition overwriteBody : list Byte.byte :=
  let q := [Byte.x22] in
  String.list_byte_of_string "{" ++ q ++ String.list_byte_of_string "ratelimit"
    ++ q ++ String.list_byte_of_string ":{" ++ q
    ++ String.list_byte_of_string "limit" ++ q
    ++ String.list_byte_of_string ":7}," ++ q
    ++ String.list_byte_of_string "meta" ++ q
    ++ String.list_byte_of_string ":3}".

(** [json.Unmarshal] into the response on [overwriteBody]: the key
    [ratelimit] matches the field [RateLimit] without regard to case and its
    object is decoded into the [RateLimit] the field points to, which sets
    [Limit] to 7; the number under [meta] is a type error, which the decoder
    records and returns when it is done.  A field that is nil gets a new
    object.  On another body this decoder decodes nothing. *)
Definition overwriteUnmarshalResponse (data : list Byte.byte)
    (v : TweetRecentSearchResponse (P := samplePayloads))
  : TweetRecentSearchResponse (P := samplePayloads)
    * (RateLimit -> RateLimit) * option (error (P := samplePayloads)) :=
  if String.eqb (String.string_of_list_byte data)
       (String.string_of_list_byte overwriteBody) then
    let write := fun r => mkRateLimit 7 (Remaining r) (Reset r) in
    (mkTweetRecentSearchResponse (Raw v) (Meta v)
       (Some (write (default (mkRateLimit 0 0 0) (respRateLimit v)))),
     write,
     Some (LibraryError
             "json: cannot unmarshal number into Go struct field TweetRecentSearchResponse.meta of type twitter.TweetRecentSearchMeta"))
  else (v, id, None).

Definition overwriteBuild :=
  Build (P := samplePayloads)
    (sampleUnmarshal sampleError)
    (sampleUnmarshal (overwriteBody : TweetRaw (Payloads := samplePayloads)))
    overwriteUnmarshalResponse
    (sampleRate "X-Rate-Limit-Limit")
    (sampleRate "X-App-Limit-24hour-Limit")
    (sampleRate "X-User-Limit-24hour-Limit").

Definition sampleBuildMeta :=
  Build (P := samplePayloads)
    (sampleUnmarshal sampleError)
    (sampleUnmarshal ([Byte.x7b; Byte.x7d] : TweetRaw (Payloads := samplePayloads)))
    sampleUnmarshalMeta
    (sampleRate "X-Rate-Limit-Limit")
    (sampleRate "X-App-Limit-24hour-Limit")
    (sampleRate "X-User-Limit-24hour-Limit").

(** * The facts *)

(** The formatter of the examples at three instants. *)
Example format_epoch :
  rfc3339.format (time.mkTime 62135596800 0 0) = "1970-01-01T00:00:00Z".
Proof. reflexivity. Qed.

Example format_zero :
  rfc3339.format (time.mkTime 0 0 0) = "0001-01-01T00:00:00Z".
Proof. reflexivity. Qed.

Example format_leap :
  rfc3339.format (time.mkTime (62135596800 + 1709251199) 5 (-18000))
  = "2024-02-29T18:59:59-05:00".
Proof. reflexivity. Qed.

(** [Encode] sorts the keys and escapes the values. *)
Example Encode_ex :
  url.Encode (url.Add "b" "x y" (url.Add "a" "1,2" (url.Add "b" "~&;" ∅)))
  = "a=1%2C2&b=~%26%3B&b=x+y".
Proof. vm_compute. reflexivity. Qed.

(** The scenario of the spec: [MaxResults: 50, SinceID: "100"]. *)
Example addQuery_scenario :
  url.RawQuery (http.URL (addQuery
    (mkTweetRecentSearchOpts (L := stringLookups) [] [] [] [] [] []
       zeroTime zeroTime "" 50 "" "100" "")
    (http.mkRequest "GET" (url.mkURL "/2/tweets/search/recent" ""))))
  = "max_results=50&since_id=100".
Proof. vm_compute. reflexivity. Qed.

(** A sort order outside the two enumerants, as [Encode] writes it. *)
Example addQuery_sort_order_wire :
  url.RawQuery (http.URL (addQuery sampleOpts
    (http.mkRequest "GET" (url.mkURL "/2/tweets/search/recent" ""))))
  = "expansions=author_id%2Cgeo.place_id&sort_order=oldest+first".
Proof. vm_compute. reflexivity. Qed.

(** A request that already has parameters: they are kept and re-encoded. *)
Example addQuery_ex :
  url.RawQuery (http.URL (addQuery (L := stringLookups)
    (mkTweetRecentSearchOpts (L := stringLookups) [] [] [] [] ["id"; "text"] []
       (time.mkTime 0 0 0) (time.mkTime 0 0 0) "" 50 "" "100" "")
    (http.mkRequest "GET" (url.mkURL "/2/tweets/search/recent" "query=go lang&x"))))
  = "max_results=50&query=go+lang&since_id=100&tweet.fields=id%2Ctext&x=".
Proof. vm_compute. reflexivity. Qed.

(** ** Facts about the query component *)
Module url_facts.
Import strings url.

Lemma append_nil_l (s : string) : "" +:+ s = s.
Proof. reflexivity. Qed.

Lemma append_cons (c : ascii) (s t : string) :
  String c s +:+ t = String c (s +:+ t).
Proof. reflexivity. Qed.

Lemma append_nil_r (s : string) : s +:+ "" = s.
Proof. induction s as [|c s IH]; [done|]. by rewrite append_cons, IH. Qed.

Lemma append_assoc (s t u : string) : (s +:+ t) +:+ u = s +:+ t +:+ u.
Proof. induction s as [|c s IH]; [done|]. by rewrite !append_cons, IH. Qed.

Lemma append_eq_nil (s t : string) : s +:+ t = "" -> s = "" /\ t = "".
Proof. destruct s; [done|]. by rewrite append_cons. Qed.

Lemma length_append (s t : string) :
  String.length (s +:+ t) = (String.length s + String.length t)%nat.
Proof. induction s as [|c s IH]; [done|]. rewrite append_cons. simpl. lia. Qed.

Lemma Contains_app (s t : string) (c : ascii) :
  Contains (s +:+ t) c = Contains s c || Contains t c.
Proof.
  induction s as [|a s IH]; [done|].
  rewrite append_cons. simpl. rewrite IH. by destruct (Ascii.eqb a c).
Qed.

Lemma Cut_found (a rest : string) (sep : ascii) :
  Contains a sep = false ->
  Cut (a +:+ String sep rest) sep = (a, rest, true).
Proof.
  induction a as [|c a IH]; intros Hc.
  - rewrite append_nil_l. simpl. by rewrite Ascii.eqb_refl.
  - simpl in Hc. apply orb_false_iff in Hc as [Hne Hc].
    rewrite append_cons. simpl. rewrite Hne, IH; done.
Qed.

Lemma Cut_missing (a : string) (sep : ascii) :
  Contains a sep = false -> Cut a sep = (a, "", false).
Proof.
  induction a as [|c a IH]; intros Hc; [done|].
  simpl in Hc. apply orb_false_iff in Hc as [Hne Hc].
  simpl. rewrite Hne, IH; done.
Qed.

(** *** Escaping *)

Lemma QueryUnescape_escape_byte (c : ascii) (rest : string) :
  QueryUnescape (escape_byte c rest) = String c <$> QueryUnescape rest.
Proof. destruct c as [[] [] [] [] [] [] [] []]; reflexivity. Qed.

(** Unescaping undoes escaping. *)
Lemma QueryUnescape_QueryEscape (s : string) :
  QueryUnescape (QueryEscape s) = Some s.
Proof.
  induction s as [|c s IH]; [done|].
  simpl. by rewrite QueryUnescape_escape_byte, IH.
Qed.

Lemma Contains_escape_byte (c x : ascii) (rest : string) :
  separator x -> Contains (escape_byte c rest) x = Contains rest x.
Proof.
  intros [-> | [-> | ->]];
    destruct c as [[] [] [] [] [] [] [] []]; reflexivity.
Qed.

(** An escaped string holds none of them. *)
Lemma Contains_QueryEscape (s : string) (x : ascii) :
  separator x -> Contains (QueryEscape s) x = false.
Proof.
  intros Hx. induction s as [|c s IH]; [done|].
  simpl. by rewrite Contains_escape_byte.
Qed.

(** *** [Encode] writes the pairs of the map, joined with [&] *)

Lemma renderPair_nonempty (p : string * string) : renderPair p <> "".
Proof.
  unfold renderPair. intros H.
  apply append_eq_nil in H as [_ H]. by rewrite append_cons in H.
Qed.

Lemma renderPair_no_amp (p : string * string) :
  Contains (renderPair p) "&" = false.
Proof.
  unfold renderPair. rewrite !Contains_app. simpl.
  rewrite !Contains_QueryEscape; [done|by left..].
Qed.

Lemma encodeKey_extend (k : string) (vs : list string) (buf : string) :
  encodeKey (QueryEscape k) vs buf = extend buf (renderPair <$> (pair k <$> vs)).
Proof.
  unfold encodeKey, extend. revert buf.
  induction vs as [|x vs IH]; intros buf; [done|].
  simpl. by rewrite IH.
Qed.

Lemma extend_app (buf : string) (a b : list string) :
  extend buf (a ++ b) = extend (extend buf a) b.
Proof. unfold extend. by rewrite foldl_app. Qed.

Lemma foldl_encodeKey (v : Values) (keys : list string) (buf : string) :
  foldl (fun buf k => encodeKey (QueryEscape k) (index v k) buf) buf keys
  = extend buf (renderPair <$> pairsOf v keys).
Proof.
  revert buf. induction keys as [|k keys IH]; intros buf; [done|].
  unfold pairsOf. simpl. rewrite fmap_app, extend_app, IH.
  by rewrite encodeKey_extend.
Qed.

Lemma extend_Join (buf : string) (segs : list string) :
  buf <> "" -> extend buf segs = Join (buf :: segs) "&".
Proof.
  revert buf. induction segs as [|seg segs IH]; intros buf Hbuf; [done|].
  unfold extend in *. simpl foldl.
  destruct (decide (buf = "")) as [|_]; [done|].
  rewrite IH.
  - destruct segs; simpl; by rewrite ?append_assoc.
  - intros H. apply append_eq_nil in H as [H _].
    by apply append_eq_nil in H as [? _].
Qed.

Lemma extend_empty_Join (segs : list string) :
  Forall (fun seg => seg <> "") segs -> extend "" segs = Join segs "&".
Proof.
  intros H. destruct H as [|seg segs Hseg _]; [done|].
  unfold extend. simpl foldl. apply (extend_Join seg segs Hseg).
Qed.

Lemma sortedKeys_empty : sortedKeys ∅ = [].
Proof. unfold sortedKeys. by rewrite map_to_list_empty. Qed.

(** [Encode] is the [&]-separated list of the rendered pairs. *)
Lemma Encode_Join (v : Values) :
  Encode v = Join (renderPair <$> pairs v) "&".
Proof.
  unfold Encode, pairs. destruct (decide (size v = 0%nat)) as [Hz|_].
  - apply map_size_empty_inv in Hz as ->. by rewrite sortedKeys_empty.
  - rewrite foldl_encodeKey. apply extend_empty_Join.
    apply Forall_fmap, Forall_forall. intros p _. apply renderPair_nonempty.
Qed.

(** *** Parsing what [Encode] wrote *)

Lemma parsePair_renderPair (m : Values) (k x : string) :
  parsePair m (renderPair (k, x)) = Add k x m.
Proof.
  unfold parsePair, renderPair. simpl.
  rewrite !Contains_app. simpl.
  rewrite !Contains_QueryEscape by (by right; right). simpl.
  destruct (decide _) as [H|_].
  { apply append_eq_nil in H as [_ H]. by rewrite append_cons in H. }
  rewrite append_cons, append_nil_l.
  rewrite Cut_found by (apply Contains_QueryEscape; by right; left).
  by rewrite !QueryUnescape_QueryEscape.
Qed.

Lemma parseQuery_empty (fuel : nat) (m : Values) : parseQuery fuel m "" = m.
Proof. by destruct fuel. Qed.

(** What [Cut] leaves of a non-empty string is shorter than the string. *)
Lemma Cut_shorter (s : string) (sep : ascii) :
  s <> "" -> (String.length (Cut s sep).1.2 < String.length s)%nat.
Proof.
  induction s as [|c s IH]; [done|]. intros _. simpl.
  destruct (Ascii.eqb c sep); simpl; [lia|].
  destruct s as [|c' s]; [simpl; lia|].
  specialize (IH ltac:(done)).
  destruct (Cut (String c' s) sep) as [[before after] found].
  simpl in *. lia.
Qed.

(** The loop of [parseQuery] ends on the empty query before the fuel of
    [ParseQuery] is used up: more fuel gives the same map. *)
Lemma parseQuery_fuel (fuel fuel' : nat) (m : Values) (query : string) :
  (String.length query <= fuel)%nat -> (String.length query <= fuel')%nat ->
  parseQuery fuel m query = parseQuery fuel' m query.
Proof.
  revert fuel' m query.
  induction fuel as [|fuel IH]; intros fuel' m query Hf Hf'.
  - destruct query; [|simpl in Hf; lia]. by rewrite !parseQuery_empty.
  - destruct fuel' as [|fuel'].
    { destruct query; [|simpl in Hf'; lia]. by rewrite !parseQuery_empty. }
    simpl. destruct (decide (query = "")) as [|Hne]; [done|].
    pose proof (Cut_shorter query "&" Hne) as Hlt.
    destruct (Cut query "&") as [[seg rest] found]. simpl in Hlt.
    apply IH; lia.
Qed.

Lemma parseQuery_Join (segs : list string) (fuel : nat) (m : Values) :
  Forall (fun seg => seg <> "" /\ Contains seg "&" = false) segs ->
  (String.length (Join segs "&") <= fuel)%nat ->
  parseQuery fuel m (Join segs "&") = foldl parsePair m segs.
Proof.
  revert fuel m. induction segs as [|seg segs IH]; intros fuel m Hs Hf.
  - apply parseQuery_empty.
  - apply Forall_cons in Hs as [[Hne Hamp] Hs].
    destruct segs as [|seg' segs].
    + simpl in *. destruct fuel as [|fuel].
      { destruct seg; [done|simpl in Hf; lia]. }
      simpl. destruct (decide _) as [|_]; [done|].
      rewrite Cut_missing by done. apply parseQuery_empty.
    + change (Join (seg :: seg' :: segs) "&")
        with (seg +:+ "&" +:+ Join (seg' :: segs) "&") in *.
      rewrite length_append, append_cons, append_nil_l in Hf.
      change (String.length (String "&" ?r)) with (S (String.length r)) in Hf.
      destruct fuel as [|fuel]; [lia|].
      simpl parseQuery. destruct (decide _) as [H|_].
      { by apply append_eq_nil in H as [? _]. }
      rewrite append_cons, append_nil_l, Cut_found by done.
      rewrite IH; [done|done|lia].
Qed.

Lemma addPairs_app (m : Values) (ps qs : list (string * string)) :
  addPairs m (ps ++ qs) = addPairs (addPairs m ps) qs.
Proof. apply foldl_app. Qed.

Lemma foldl_parsePair_render (m : Values) (ps : list (string * string)) :
  foldl parsePair m (renderPair <$> ps) = addPairs m ps.
Proof.
  revert m. induction ps as [|[k x] ps IH]; intros m; [done|].
  simpl. by rewrite parsePair_renderPair, IH.
Qed.

Lemma index_Add (m : Values) (k x k' : string) :
  index (Add k x m) k'
  = if decide (k = k') then index m k ++ [x] else index m k'.
Proof.
  unfold index, Add. rewrite lookup_insert.
  destruct (decide (k = k')); done.
Qed.

Lemma lookup_Add_ne (m : Values) (k x k' : string) :
  k <> k' -> Add k x m !! k' = m !! k'.
Proof. intros H. unfold Add. by rewrite lookup_insert_ne. Qed.

Lemma lookup_Add_eq (m : Values) (k x : string) :
  Add k x m !! k = Some (index m k ++ [x]).
Proof. unfold Add. by rewrite lookup_insert_eq. Qed.

(** The values of one key, added in a row. *)
Lemma lookup_addPairs_key (m : Values) (k : string) (vs : list string)
    (k' : string) :
  addPairs m (pair k <$> vs) !! k'
  = if decide (k' = k /\ vs <> []) then Some (index m k ++ vs) else m !! k'.
Proof.
  revert m. induction vs as [|x vs IH]; intros m.
  - simpl. destruct (decide _) as [[_ ?]|_]; done.
  - simpl. rewrite IH. rewrite index_Add.
    destruct (decide (k = k)) as [_|]; [|done].
    destruct (decide (k' = k)) as [->|Hne].
    + rewrite lookup_Add_eq. rewrite <- (assoc_L (++)). simpl.
      destruct vs; repeat destruct (decide _); naive_solver.
    + rewrite lookup_Add_ne by done.
      repeat destruct (decide _); naive_solver.
Qed.

Lemma index_addPairs_key_ne (m : Values) (k : string) (vs : list string)
    (k' : string) :
  k' <> k -> index (addPairs m (pair k <$> vs)) k' = index m k'.
Proof.
  intros Hne. unfold index at 1. rewrite lookup_addPairs_key.
  destruct (decide _); naive_solver.
Qed.

(** The pairs of [v] for distinct keys, added to [m]. *)
Lemma lookup_addPairs_pairsOf (v : Values) (keys : list string) (m : Values)
    (k' : string) :
  NoDup keys ->
  addPairs m (pairsOf v keys) !! k'
  = if decide (k' ∈ keys /\ index v k' <> [])
    then Some (index m k' ++ index v k') else m !! k'.
Proof.
  revert m. induction keys as [|k keys IH]; intros m Hnd.
  - done.
  - apply NoDup_cons in Hnd as [Hk Hnd].
    unfold pairsOf. rewrite bind_cons. fold (pairsOf v keys).
    rewrite addPairs_app, IH by done.
    destruct (decide (k' = k)) as [->|Hne].
    + rewrite lookup_addPairs_key.
      repeat destruct (decide _); try done; set_solver.
    + rewrite index_addPairs_key_ne, lookup_addPairs_key by done.
      repeat destruct (decide _); try done; set_solver.
Qed.

Lemma elem_of_sortedKeys (v : Values) (k : string) :
  k ∈ sortedKeys v <-> is_Some (v !! k).
Proof.
  unfold sortedKeys. rewrite merge_sort_Permutation.
  rewrite list_elem_of_fmap. split.
  - intros [[k0 vs] [-> H]]. apply elem_of_map_to_list in H. by eexists.
  - intros [vs H]. exists (k, vs). split; [done|].
    by apply elem_of_map_to_list.
Qed.

Lemma NoDup_sortedKeys (v : Values) : NoDup (sortedKeys v).
Proof.
  unfold sortedKeys. rewrite merge_sort_Permutation.
  apply NoDup_fst_map_to_list.
Qed.

Lemma populated_empty : populated ∅.
Proof. intros k vs H. by rewrite lookup_empty in H. Qed.

Lemma populated_insert (v : Values) (k x : string) :
  populated v -> populated (<[k := index v k ++ [x]]> v).
Proof.
  intros Hv k' vs. rewrite lookup_insert. case_decide.
  - intros [= <-]. by destruct (index v k).
  - apply Hv.
Qed.

Lemma populated_Add (v : Values) (k x : string) :
  populated v -> populated (Add k x v).
Proof. apply populated_insert. Qed.

Lemma populated_addPairs (v : Values) (ps : list (string * string)) :
  populated v -> populated (addPairs v ps).
Proof.
  revert v. induction ps as [|p ps IH]; intros v Hv; [done|].
  simpl. by apply IH, populated_Add.
Qed.

Lemma populated_parsePair (m : Values) (seg : string) :
  populated m -> populated (parsePair m seg).
Proof.
  intros Hm. unfold parsePair.
  destruct (Contains seg ";"); [done|].
  destruct (decide (seg = "")); [done|].
  destruct (Cut seg "=") as [[k x] found].
  destruct (QueryUnescape k); [|done].
  destruct (QueryUnescape x); [|done].
  by apply populated_insert.
Qed.

Lemma populated_parseQuery (fuel : nat) (m : Values) (query : string) :
  populated m -> populated (parseQuery fuel m query).
Proof.
  revert m query. induction fuel as [|fuel IH]; intros m query Hm; [done|].
  simpl. destruct (decide (query = "")); [done|].
  destruct (Cut query "&") as [[seg rest] found].
  by apply IH, populated_parsePair.
Qed.

Lemma populated_ParseQuery (query : string) : populated (ParseQuery query).
Proof. apply populated_parseQuery, populated_empty. Qed.

(** Adding the pairs of a map to the empty map rebuilds the map. *)
Lemma addPairs_pairs (v : Values) : populated v -> addPairs ∅ (pairs v) = v.
Proof.
  intros Hv. apply map_eq. intros k. unfold pairs.
  rewrite lookup_addPairs_pairsOf by apply NoDup_sortedKeys.
  destruct (decide _) as [[Hin Hne]|Hno].
  - apply elem_of_sortedKeys in Hin as [vs Hk].
    unfold index. by rewrite lookup_empty, Hk.
  - rewrite lookup_empty. destruct (v !! k) as [vs|] eqn:Hk; [|done].
    exfalso. apply Hno. split.
    + apply elem_of_sortedKeys. by eexists.
    + unfold index. rewrite Hk. simpl. by apply (Hv k).
Qed.

(** Parsing undoes encoding. *)
Lemma ParseQuery_Encode (v : Values) :
  populated v -> ParseQuery (Encode v) = v.
Proof.
  intros Hv. unfold ParseQuery. rewrite Encode_Join.
  rewrite parseQuery_Join.
  - by rewrite foldl_parsePair_render, addPairs_pairs.
  - apply Forall_fmap, Forall_forall. intros p _. simpl.
    split; [apply renderPair_nonempty|apply renderPair_no_amp].
  - done.
Qed.

End url_facts.

(** ** Facts about the three [addQuery] methods *)
Section EncoderFacts.
Context {L : Lookups}.
Import strings url url_facts.

Lemma addPairs_emit (m : Values) (c : bool) (k v : string) :
  addPairs m (emit c k v) = if c then Add k v m else m.
Proof. by destruct c. Qed.

(** One guarded [Add] followed by the rest of the method. *)
Lemma guarded_Add_step (c : bool) (k v : string) (m : Values)
    (rest : list (string * string)) (K F : Values -> http.Request) :
  (forall q, K q = F (addPairs q rest)) ->
  (let q := if c then Add k v m else m in K q)
  = F (addPairs m (emit c k v ++ rest)).
Proof. intros H. rewrite addPairs_app, addPairs_emit. apply H. Qed.

Ltac guarded_Add_steps req :=
  repeat lazymatch goal with
    | |- (let x := (if ?c then Add ?k ?v ?m else ?m) in @?K x) = _ =>
        apply (guarded_Add_step c k v m _ K (writeBack req));
        clear; intros ?
    end.

Lemma addQuery_mergeQuery (t : TweetRecentSearchOpts) (req : http.Request) :
  addQuery t req = mergeQuery (emitted t) req.
Proof.
  cbv beta delta [addQuery mergeQuery emitted].
  rewrite <- (right_id_L [] (++) (emit _ "sort_order" _)).
  generalize (Query (http.URL req)). intros q.
  lazymatch goal with
  | |- (let x := ?e in @?K x) = ?r => change (K e = r); cbv beta
  end.
  guarded_Add_steps req.
  reflexivity.
Qed.

Lemma addQuery_full_asRecent (t : TweetSearchOpts) (req : http.Request) :
  addQuery_full t req = addQuery (asRecent t) req.
Proof. reflexivity. Qed.

Lemma addQuery_user_mergeQuery (u : UserLookupOpts) (req : http.Request) :
  addQuery_user u req = mergeQuery (emitted_user u) req.
Proof.
  cbv beta delta [addQuery_user mergeQuery emitted_user].
  rewrite <- (right_id_L [] (++) (emit _ "user.fields" _)).
  generalize (Query (http.URL req)). intros q.
  lazymatch goal with
  | |- (let x := ?e in @?K x) = ?r => change (K e = r); cbv beta
  end.
  guarded_Add_steps req.
  reflexivity.
Qed.

Lemma addPairs_snoc (m : Values) (ps : list (string * string))
    (p : string * string) :
  addPairs m (ps ++ [p]) = Add p.1 p.2 (addPairs m ps).
Proof. by rewrite addPairs_app. Qed.

(** Only adding nothing to the empty map leaves the empty map. *)
Lemma addPairs_size_0 (m : Values) (ps : list (string * string)) :
  size (addPairs m ps) = 0%nat -> m = ∅ /\ ps = [].
Proof.
  destruct ps as [|p ps _] using rev_ind.
  - intros H. by apply map_size_empty_inv in H.
  - rewrite addPairs_snoc. intros H. apply map_size_empty_inv in H.
    unfold Add in H. by apply insert_non_empty in H.
Qed.

(** The query of the request after [mergeQuery], parsed, is the parsed query
    before it with the pairs added. *)
Lemma Query_mergeQuery (ps : list (string * string)) (req : http.Request) :
  Query (http.URL (mergeQuery ps req)) = addPairs (Query (http.URL req)) ps.
Proof.
  unfold mergeQuery, writeBack.
  destruct (0 <? size _)%nat eqn:Hsz.
  - unfold Query at 1. simpl. apply ParseQuery_Encode.
    apply populated_addPairs, populated_ParseQuery.
  - apply Nat.ltb_ge in Hsz.
    destruct (addPairs_size_0 (Query (http.URL req)) ps) as [-> ->]; [lia|].
    done.
Qed.

Lemma RawQuery_mergeQuery (ps : list (string * string)) (req : http.Request) :
  RawQuery (http.URL (mergeQuery ps req))
  = let q := addPairs (ParseQuery (RawQuery (http.URL req))) ps in
    if (0 <? size q)%nat then Encode q else RawQuery (http.URL req).
Proof.
  unfold mergeQuery, writeBack, Query. simpl.
  by destruct (0 <? size _)%nat.
Qed.

Lemma valuesOf_app (k : string) (ps qs : list (string * string)) :
  valuesOf k (ps ++ qs) = valuesOf k ps ++ valuesOf k qs.
Proof. unfold valuesOf. by rewrite filter_app, fmap_app. Qed.

Lemma valuesOf_emit_eq (c : bool) (k v : string) :
  valuesOf k (emit c k v) = if c then [v] else [].
Proof.
  destruct c; [|done]. unfold valuesOf. simpl.
  rewrite filter_cons_True by done. done.
Qed.

Lemma valuesOf_emit_ne (c : bool) (k k' v : string) :
  k' <> k -> valuesOf k (emit c k' v) = [].
Proof.
  intros Hne. destruct c; [|done]. unfold valuesOf. simpl.
  rewrite filter_cons_False by done. done.
Qed.

Lemma index_addPairs (m : Values) (ps : list (string * string)) (k : string) :
  index (addPairs m ps) k = index m k ++ valuesOf k ps.
Proof.
  revert m. induction ps as [|[k' x] ps IH]; intros m.
  - unfold valuesOf. simpl. by rewrite (right_id_L [] (++)).
  - simpl. rewrite IH, index_Add. unfold valuesOf. simpl.
    destruct (decide (k' = k)) as [->|Hne].
    + rewrite filter_cons_True by done. simpl. by rewrite <- (assoc_L (++)).
    + by rewrite filter_cons_False by done.
Qed.

(** What [mergeQuery] changes under a key: the values of the pairs for that
    key are appended to those the request already had. *)
Lemma index_mergeQuery (ps : list (string * string)) (req : http.Request)
    (k : string) :
  index (Query (http.URL (mergeQuery ps req))) k
  = index (Query (http.URL req)) k ++ valuesOf k ps.
Proof. by rewrite Query_mergeQuery, index_addPairs. Qed.

Lemma valuesOf_cons (k k' x : string) (ps : list (string * string)) :
  valuesOf k ((k', x) :: ps)
  = if decide (k' = k) then x :: valuesOf k ps else valuesOf k ps.
Proof.
  unfold valuesOf. destruct (decide (k' = k)).
  - by rewrite filter_cons_True by done.
  - by rewrite filter_cons_False by done.
Qed.

Lemma lookup_addPairs (m : Values) (ps : list (string * string)) (k : string) :
  addPairs m ps !! k
  = match valuesOf k ps with
    | [] => m !! k
    | vs => Some (index m k ++ vs)
    end.
Proof.
  revert m. induction ps as [|[k' x] ps IH]; intros m; [done|].
  simpl. rewrite IH, index_Add, valuesOf_cons.
  destruct (decide (k' = k)) as [->|Hne].
  - rewrite lookup_Add_eq.
    destruct (valuesOf k ps); [done|]. by rewrite <- (assoc_L (++)).
  - by rewrite lookup_Add_ne.
Qed.

(** *** The documented keys *)

Lemma pairsOfTable_cons (k : string) (o : option string)
    (tbl : list (string * option string)) :
  pairsOfTable ((k, o) :: tbl)
  = option_list (pair k <$> o) ++ pairsOfTable tbl.
Proof. by destruct o. Qed.

Lemma emit_list {A} (l : list A) (k v : string) :
  emit (0 <? length l)%nat k v = option_list (pair k <$> ifNonEmptyList l v).
Proof. by destruct l. Qed.

Lemma emit_string (s k v : string) :
  emit (0 <? String.length s)%nat k v
  = option_list (pair k <$> ifNonEmpty s v).
Proof. by destruct s. Qed.

Lemma emit_time (t : time.Time) (k v : string) :
  emit (negb (time.IsZero t)) k v
  = option_list (pair k <$> ifNonZeroTime t v).
Proof. unfold ifNonZeroTime. by destruct (time.IsZero t). Qed.

Lemma emit_positive (n : Z) (k v : string) :
  emit (0 <? n)%Z k v = option_list (pair k <$> ifPositive n v).
Proof.
  unfold ifPositive. destruct (Z.ltb_spec 0 n), (decide (0 < n)%Z); done || lia.
Qed.

(** The methods add the pairs of their table. *)
Lemma emitted_documented (t : TweetRecentSearchOpts) :
  emitted t = pairsOfTable (documented t).
Proof.
  unfold emitted, documented. rewrite !pairsOfTable_cons.
  rewrite !emit_list, !emit_string, !emit_time, emit_positive.
  unfold pairsOfTable. simpl omap. by rewrite (right_id_L [] (++)).
Qed.

Lemma emitted_user_documented (u : UserLookupOpts) :
  emitted_user u = pairsOfTable (documented_user u).
Proof.
  unfold emitted_user, documented_user. rewrite !pairsOfTable_cons.
  rewrite !emit_list.
  unfold pairsOfTable. simpl omap. by rewrite (right_id_L [] (++)).
Qed.

Lemma valuesOf_pairsOfTable_other (tbl : list (string * option string))
    (k : string) :
  k ∉ tbl.*1 -> valuesOf k (pairsOfTable tbl) = [].
Proof.
  induction tbl as [|[k' o] tbl IH]; intros Hk; [done|].
  simpl in Hk. apply not_elem_of_cons in Hk as [Hne Hk].
  rewrite pairsOfTable_cons, valuesOf_app, IH by done.
  destruct o; [|done]. unfold valuesOf. simpl.
  by rewrite filter_cons_False by done.
Qed.

Lemma valuesOf_pairsOfTable (tbl : list (string * option string))
    (k : string) (o : option string) :
  NoDup tbl.*1 -> (k, o) ∈ tbl ->
  valuesOf k (pairsOfTable tbl) = option_list o.
Proof.
  induction tbl as [|[k' o'] tbl IH]; intros Hnd Hin.
  - by apply elem_of_nil in Hin.
  - simpl in Hnd. apply NoDup_cons in Hnd as [Hk' Hnd].
    rewrite pairsOfTable_cons, valuesOf_app.
    apply elem_of_cons in Hin as [[= -> ->]|Hin].
    + rewrite valuesOf_pairsOfTable_other by done.
      rewrite (right_id_L [] (++)).
      destruct o'; [|done]. unfold valuesOf. simpl.
      by rewrite filter_cons_True by done.
    + rewrite IH by done.
      assert (k' <> k) as Hne.
      { intros ->. apply Hk'. apply list_elem_of_fmap. by exists (k, o). }
      destruct o'; [|done]. unfold valuesOf at 1. simpl.
      by rewrite filter_cons_False by done.
Qed.

Lemma NoDup_documented (t : TweetRecentSearchOpts) : NoDup (documented t).*1.
Proof. apply (bool_decide_unpack _). by vm_compute. Qed.

Lemma NoDup_documented_user (u : UserLookupOpts) :
  NoDup (documented_user u).*1.
Proof. apply (bool_decide_unpack _). by vm_compute. Qed.

Lemma mergeQuery_appended (tbl : list (string * option string))
    (req : http.Request) :
  NoDup tbl.*1 ->
  Forall (appended (Query (http.URL req))
            (Query (http.URL (mergeQuery (pairsOfTable tbl) req)))) tbl.
Proof.
  intros Hnd. apply Forall_forall. intros [k o] Hin. unfold appended. simpl.
  by rewrite index_mergeQuery, (valuesOf_pairsOfTable _ _ o).
Qed.

Lemma mergeQuery_emittedOnce (tbl : list (string * option string))
    (method path : string) :
  NoDup tbl.*1 ->
  Forall (emittedOnce
            (Query (http.URL (mergeQuery (pairsOfTable tbl)
               (http.mkRequest method (mkURL path ""))))))
    tbl.
Proof.
  intros Hnd. apply Forall_forall. intros [k o] Hin. unfold emittedOnce.
  simpl. rewrite Query_mergeQuery, lookup_addPairs.
  rewrite (valuesOf_pairsOfTable _ _ o) by done.
  by destruct o.
Qed.

Lemma pairsOfTable_nil (tbl : list (string * option string)) :
  Forall (fun e => e.2 = None) tbl -> pairsOfTable tbl = [].
Proof.
  induction 1 as [|[k o] tbl Ho _ IH]; [done|].
  simpl in Ho. subst o. by rewrite pairsOfTable_cons, IH.
Qed.

Lemma setRawQuery_twice (req : http.Request) (a b : string) :
  setRawQuery (setRawQuery req a) b = setRawQuery req b.
Proof. reflexivity. Qed.

(** Merging no pair a second time changes nothing. *)
Lemma mergeQuery_nil_twice (req : http.Request) :
  mergeQuery [] (mergeQuery [] req) = mergeQuery [] req.
Proof.
  unfold mergeQuery at 1. rewrite Query_mergeQuery.
  unfold mergeQuery, writeBack. simpl addPairs.
  destruct (0 <? size (Query (http.URL req)))%nat; done.
Qed.

(** Merging a table twice gives the raw query of merging it once exactly
    when no entry of the table has a value. *)
Lemma mergeQuery_twice (tbl : list (string * option string))
    (req : http.Request) :
  NoDup tbl.*1 ->
  RawQuery (http.URL (mergeQuery (pairsOfTable tbl)
                        (mergeQuery (pairsOfTable tbl) req)))
  = RawQuery (http.URL (mergeQuery (pairsOfTable tbl) req))
  <-> Forall (fun e => e.2 = None) tbl.
Proof.
  intros Hnd. split.
  - intros Heq. apply Forall_forall. intros [k o] Hin. simpl.
    pose proof (mergeQuery_appended tbl (mergeQuery (pairsOfTable tbl) req)
                  Hnd) as Happ.
    rewrite Forall_forall in Happ. specialize (Happ _ Hin).
    unfold appended, Query in Happ. rewrite Heq in Happ. simpl in Happ.
    rewrite <- (right_id_L [] (++)) in Happ at 1.
    apply (inj (app _)) in Happ. by destruct o.
  - intros Hnone. rewrite (pairsOfTable_nil tbl Hnone).
    by rewrite mergeQuery_nil_twice.
Qed.

(** The values a request has under a key stay in front of those that are
    merged in. *)
Lemma mergeQuery_keeps (ps : list (string * string)) (req : http.Request)
    (k : string) :
  index (Query (http.URL req)) k
    `prefix_of` index (Query (http.URL (mergeQuery ps req))) k.
Proof. rewrite index_mergeQuery. by eexists. Qed.

Lemma mergeQuery_nil (req : http.Request) :
  Query (http.URL (mergeQuery [] req)) = Query (http.URL req)
  /\ (Query (http.URL req) = ∅ -> mergeQuery [] req = req)
  /\ (Query (http.URL req) <> ∅ ->
      mergeQuery [] req
      = setRawQuery req (Encode (Query (http.URL req)))).
Proof.
  split; [apply Query_mergeQuery|].
  unfold mergeQuery, writeBack. simpl addPairs. split.
  - intros ->. done.
  - intros Hne. destruct (0 <? size _)%nat eqn:Hsz; [done|].
    apply Nat.ltb_ge in Hsz. exfalso. apply Hne.
    apply map_size_empty_inv. lia.
Qed.

Lemma zeroValued_documented (t : TweetRecentSearchOpts) :
  zeroValued t -> Forall (fun e => e.2 = None) (documented t).
Proof.
  intros (H1 & H2 & H3 & H4 & H5 & H6 & H7 & H8 & H9 & H10 & H11 & H12 & H13).
  unfold documented, ifNonZeroTime.
  rewrite H1, H2, H3, H4, H5, H6, H7, H8, H9, H10, H11, H12, H13.
  repeat constructor.
Qed.

Lemma zeroValued_user_documented (u : UserLookupOpts) :
  zeroValued_user u -> Forall (fun e => e.2 = None) (documented_user u).
Proof.
  intros (H1 & H2 & H3). unfold documented_user. rewrite H1, H2, H3.
  repeat constructor.
Qed.

Lemma Split_Join (xs : list string) :
  xs <> [] -> Forall (fun x => Contains x "," = false) xs ->
  Split (Join xs ",") "," = xs.
Proof.
  intros Hne Hxs. induction Hxs as [|x xs Hx Hxs IH]; [done|]. clear Hne.
  assert (forall rest, Split (x +:+ String "," rest) "," = x :: Split rest ",")
    as Hcut.
  { intros rest. induction x as [|c x IHx]; [done|].
    simpl in Hx. apply orb_false_iff in Hx as [Hc Hx].
    rewrite append_cons. simpl. rewrite Hc. by rewrite IHx. }
  destruct xs as [|y xs].
  - simpl. clear IH Hcut. induction x as [|c x IHx]; [done|].
    simpl in Hx. apply orb_false_iff in Hx as [Hc Hx].
    simpl. rewrite Hc. by rewrite IHx.
  - change (Join (x :: y :: xs) ",") with (x +:+ "," +:+ Join (y :: xs) ",").
    rewrite append_cons, append_nil_l, Hcut. by rewrite IH.
Qed.

Lemma documented_collections (t : TweetRecentSearchOpts) (k : string)
    (xs : list string) :
  (k, xs) ∈ collections t -> xs <> [] ->
  (k, Some (Join xs ",")) ∈ documented t.
Proof.
  unfold collections, documented. intros Hin Hne.
  repeat (apply elem_of_cons in Hin as [[= -> ->]|Hin]);
    [..|by apply elem_of_nil in Hin];
    match goal with
    | H : _ <$> ?l <> [] |- _ => destruct l; [done|]
    end; simpl ifNonEmptyList; set_solver.
Qed.

Lemma documented_collections_user (u : UserLookupOpts) (k : string)
    (xs : list string) :
  (k, xs) ∈ collections_user u -> xs <> [] ->
  (k, Some (Join xs ",")) ∈ documented_user u.
Proof.
  unfold collections_user, documented_user. intros Hin Hne.
  repeat (apply elem_of_cons in Hin as [[= -> ->]|Hin]);
    [..|by apply elem_of_nil in Hin];
    match goal with
    | H : _ <$> ?l <> [] |- _ => destruct l; [done|]
    end; simpl ifNonEmptyList; set_solver.
Qed.

(** *** The properties of the option encoder *)

(** C1. Each documented key gets the value of its field appended exactly
    when the field is not the zero value of its type, and only one value;
    on a request without a query the key is then present once, with that
    value, and is absent when the field is zero-valued.  This holds for
    the recent-search, the full-search and the user-lookup options. *)
Theorem addQuery_emits_nonzero_fields_once
    (t : TweetRecentSearchOpts) (f : TweetSearchOpts) (u : UserLookupOpts)
    (req : http.Request) (method path : string) :
  Forall (appended (queryOf req) (queryOf (addQuery t req))) (documented t)
  /\ Forall (appended (queryOf req) (queryOf (addQuery_full f req)))
       (documented (asRecent f))
  /\ Forall (appended (queryOf req) (queryOf (addQuery_user u req)))
       (documented_user u)
  /\ Forall (emittedOnce (queryOf (addQuery t (freshRequest method path))))
       (documented t)
  /\ Forall (emittedOnce
               (queryOf (addQuery_full f (freshRequest method path))))
       (documented (asRecent f))
  /\ Forall (emittedOnce
               (queryOf (addQuery_user u (freshRequest method path))))
       (documented_user u).
Proof.
  unfold queryOf, freshRequest.
  rewrite !addQuery_full_asRecent, !addQuery_mergeQuery,
    !addQuery_user_mergeQuery, !emitted_documented, !emitted_user_documented.
  repeat split;
    first [ apply mergeQuery_appended | apply mergeQuery_emittedOnce ];
    first [ apply NoDup_documented | apply NoDup_documented_user ].
Qed.

(** C3. A non-empty collection-valued field is emitted as one value: the
    string forms of its elements joined with a comma, in the order of the
    field.  Splitting that value at the commas gives the string forms back
    in the same order when none of them holds a comma. *)
Theorem addQuery_joins_in_caller_order
    (t : TweetRecentSearchOpts) (f : TweetSearchOpts) (u : UserLookupOpts)
    (req : http.Request) :
  Forall (joined (queryOf req) (queryOf (addQuery t req))) (collections t)
  /\ Forall (joined (queryOf req) (queryOf (addQuery_full f req)))
       (collections (asRecent f))
  /\ Forall (joined (queryOf req) (queryOf (addQuery_user u req)))
       (collections_user u)
  /\ (forall xs : list string,
        xs <> [] -> Forall (fun x => Contains x "," = false) xs ->
        Split (Join xs ",") "," = xs).
Proof.
  unfold queryOf.
  rewrite !addQuery_full_asRecent, !addQuery_mergeQuery,
    addQuery_user_mergeQuery, !emitted_documented, emitted_user_documented.
  repeat split.
  - apply Forall_forall. intros [k xs] Hin. unfold joined. cbn [fst snd].
    intros Hne. rewrite index_mergeQuery.
    by rewrite (valuesOf_pairsOfTable _ _ (Some (Join xs ",")))
      by auto using NoDup_documented, documented_collections.
  - apply Forall_forall. intros [k xs] Hin. unfold joined. cbn [fst snd].
    intros Hne. rewrite index_mergeQuery.
    by rewrite (valuesOf_pairsOfTable _ _ (Some (Join xs ",")))
      by auto using NoDup_documented, documented_collections.
  - apply Forall_forall. intros [k xs] Hin. unfold joined. cbn [fst snd].
    intros Hne. rewrite index_mergeQuery.
    by rewrite (valuesOf_pairsOfTable _ _ (Some (Join xs ",")))
      by auto using NoDup_documented_user, documented_collections_user.
  - apply Split_Join.
Qed.

(** C8. A non-empty sort order is appended under [sort_order] as it is,
    whatever string it is: no value is rejected or replaced.  On a request
    without a query, [sort_order] then has that string as its one value. *)
Theorem addQuery_sort_order_verbatim
    (t : TweetRecentSearchOpts) (f : TweetSearchOpts)
    (req : http.Request) (method path : string) :
  (SortOrder t <> "" ->
   index (queryOf (addQuery t req)) "sort_order"
   = index (queryOf req) "sort_order" ++ [SortOrder t]
   /\ queryOf (addQuery t (freshRequest method path)) !! "sort_order"
      = Some [SortOrder t])
  /\ (fSortOrder f <> "" ->
      index (queryOf (addQuery_full f req)) "sort_order"
      = index (queryOf req) "sort_order" ++ [fSortOrder f]
      /\ queryOf (addQuery_full f (freshRequest method path)) !! "sort_order"
         = Some [fSortOrder f]).
Proof.
  assert (forall t, SortOrder t <> "" ->
            ("sort_order", Some (SortOrder t)) ∈ documented t) as Hin.
  { intros t' Hne. unfold documented. destruct (SortOrder t'); [done|].
    simpl ifNonEmpty. set_solver. }
  unfold queryOf, freshRequest. rewrite !addQuery_full_asRecent.
  split; intros Hne; rewrite !addQuery_mergeQuery, !emitted_documented.
  - split.
    + rewrite index_mergeQuery.
      by rewrite (valuesOf_pairsOfTable _ _ (Some (SortOrder t)))
        by auto using NoDup_documented.
    + rewrite Query_mergeQuery, lookup_addPairs.
      by rewrite (valuesOf_pairsOfTable _ _ (Some (SortOrder t)))
        by auto using NoDup_documented.
  - split.
    + rewrite index_mergeQuery.
      by rewrite (valuesOf_pairsOfTable _ _ (Some (fSortOrder f)))
        by (auto using NoDup_documented; by apply (Hin (asRecent f))).
    + rewrite Query_mergeQuery, lookup_addPairs.
      by rewrite (valuesOf_pairsOfTable _ _ (Some (fSortOrder f)))
        by (auto using NoDup_documented; by apply (Hin (asRecent f))).
Qed.

(** C2, as the code has it. The query string [addQuery] writes is a
    function of the options and of the query string the request had, so
    the same options encoded into two requests with the same query give the
    same query string.  Applied a second time to the request it has
    written, [addQuery] appends every value it emits once more: the query
    string after two applications is the one after one application
    exactly when no field is emitted. *)
Theorem addQuery_twice_same_iff_nothing_emitted
    (t : TweetRecentSearchOpts) (f : TweetSearchOpts) (u : UserLookupOpts)
    (req req' : http.Request) :
  (RawQuery (http.URL req) = RawQuery (http.URL req') ->
   RawQuery (http.URL (addQuery t req))
   = RawQuery (http.URL (addQuery t req')))
  /\ (RawQuery (http.URL (addQuery t (addQuery t req)))
      = RawQuery (http.URL (addQuery t req))
      <-> Forall (fun e => e.2 = None) (documented t))
  /\ (RawQuery (http.URL (addQuery_full f (addQuery_full f req)))
      = RawQuery (http.URL (addQuery_full f req))
      <-> Forall (fun e => e.2 = None) (documented (asRecent f)))
  /\ (RawQuery (http.URL (addQuery_user u (addQuery_user u req)))
      = RawQuery (http.URL (addQuery_user u req))
      <-> Forall (fun e => e.2 = None) (documented_user u))
  /\ Forall (appended (queryOf (addQuery t req))
               (queryOf (addQuery t (addQuery t req)))) (documented t).
Proof.
  unfold queryOf.
  rewrite !addQuery_full_asRecent, !addQuery_mergeQuery,
    !addQuery_user_mergeQuery, !emitted_documented, !emitted_user_documented.
  repeat split.
  - intros Heq. by rewrite !RawQuery_mergeQuery, Heq.
  - by apply mergeQuery_twice, NoDup_documented.
  - by apply mergeQuery_twice, NoDup_documented.
  - by apply mergeQuery_twice, NoDup_documented.
  - by apply mergeQuery_twice, NoDup_documented.
  - by apply mergeQuery_twice, NoDup_documented_user.
  - by apply mergeQuery_twice, NoDup_documented_user.
  - apply mergeQuery_appended, NoDup_documented.
Qed.

(** C10, as the code has it. With every field zero-valued, [addQuery]
    keeps the parameters the request's query parses to.  It leaves the
    request as it is when the query parses to no parameter, which covers
    the request without a query; otherwise it writes the parsed parameters
    back in the form [Encode] gives them.  Whatever the options are, the
    values a request has under a key stay, in their order, in front of
    the values merged in under that key. *)
Theorem addQuery_zero_options_keep_parameters
    (t : TweetRecentSearchOpts) (u : UserLookupOpts) (req : http.Request)
    (k : string) :
  (zeroValued t ->
   queryOf (addQuery t req) = queryOf req
   /\ (queryOf req = ∅ -> addQuery t req = req)
   /\ (queryOf req <> ∅ ->
       addQuery t req = setRawQuery req (Encode (queryOf req))))
  /\ (zeroValued_user u ->
      queryOf (addQuery_user u req) = queryOf req
      /\ (queryOf req = ∅ -> addQuery_user u req = req)
      /\ (queryOf req <> ∅ ->
          addQuery_user u req = setRawQuery req (Encode (queryOf req))))
  /\ index (queryOf req) k `prefix_of` index (queryOf (addQuery t req)) k
  /\ index (queryOf req) k `prefix_of` index (queryOf (addQuery_user u req)) k.
Proof.
  unfold queryOf.
  rewrite !addQuery_mergeQuery, !addQuery_user_mergeQuery.
  split; [|split; [|split]].
  - intros Hz. rewrite emitted_documented.
    rewrite (pairsOfTable_nil _ (zeroValued_documented t Hz)).
    apply mergeQuery_nil.
  - intros Hz. rewrite emitted_user_documented.
    rewrite (pairsOfTable_nil _ (zeroValued_user_documented u Hz)).
    apply mergeQuery_nil.
  - apply mergeQuery_keeps.
  - apply mergeQuery_keeps.
Qed.

End EncoderFacts.

(** *** The option encoder at concrete requests *)

(** C2 fails as stated: encoding [NextToken: "abc"] into a request without a
    query writes [next_token=abc]; encoding it again into that request writes
    [next_token=abc&next_token=abc]. *)
Lemma addQuery_twice_counterexample :
  let req := http.mkRequest "GET" (url.mkURL "/2/tweets/search/recent" "") in
  url.RawQuery (http.URL (addQuery (onlyNextToken "abc") req))
  = "next_token=abc"
  /\ url.RawQuery (http.URL (addQuery (onlyNextToken "abc")
                              (addQuery (onlyNextToken "abc") req)))
     = "next_token=abc&next_token=abc"
  /\ url.RawQuery (http.URL (addQuery (onlyNextToken "abc")
                              (addQuery (onlyNextToken "abc") req)))
     <> url.RawQuery (http.URL (addQuery (onlyNextToken "abc") req)).
Proof. vm_compute. repeat split; discriminate. Qed.

(** C10 fails as stated: with every field zero-valued, a request whose query
    is [b=1&a=2] leaves [addQuery] with the query [a=2&b=1]. *)
Lemma addQuery_zero_options_counterexample :
  let req := http.mkRequest "GET" (url.mkURL "/2/tweets/search/recent" "b=1&a=2") in
  zeroValued zeroOpts
  /\ url.RawQuery (http.URL (addQuery zeroOpts req)) = "a=2&b=1"
  /\ url.RawQuery (http.URL (addQuery zeroOpts req))
     <> url.RawQuery (http.URL req).
Proof. vm_compute. repeat split; discriminate. Qed.

(** Two applications at zero-valued options, and one application at two
    requests that share their query. *)
Lemma addQuery_twice_witness :
  url.RawQuery (http.URL (addQuery zeroOpts (addQuery zeroOpts sampleRequest)))
  = url.RawQuery (http.URL (addQuery zeroOpts sampleRequest))
  /\ url.RawQuery (http.URL (addQuery sampleOpts sampleRequest))
     = url.RawQuery
         (http.URL (addQuery sampleOpts
            (http.mkRequest "POST" (url.mkURL "/2/tweets/search/all" "b=1&a=2")))).
Proof.
  split.
  - apply (proj2 (proj1 (proj2 (addQuery_twice_same_iff_nothing_emitted
             zeroOpts zeroFullOpts zeroUserOpts sampleRequest sampleRequest)))).
    repeat constructor.
  - apply (proj1 (addQuery_twice_same_iff_nothing_emitted
             sampleOpts zeroFullOpts zeroUserOpts sampleRequest
             (http.mkRequest "POST" (url.mkURL "/2/tweets/search/all" "b=1&a=2")))).
    reflexivity.
Defined.

(** Two expansions, joined in the order given. *)
Lemma addQuery_joins_witness :
  url.index (queryOf (addQuery sampleOpts sampleRequest)) "expansions"
  = url.index (queryOf sampleRequest) "expansions" ++ ["author_id,geo.place_id"]
  /\ strings.Split "author_id,geo.place_id" "," = ["author_id"; "geo.place_id"].
Proof.
  pose proof (addQuery_joins_in_caller_order sampleOpts zeroFullOpts
                zeroUserOpts sampleRequest) as (H & _ & _ & Hsplit).
  split.
  - apply (Forall_inv H). discriminate.
  - apply (Hsplit ["author_id"; "geo.place_id"]); [discriminate|].
    repeat constructor.
Defined.

(** A sort order that is neither [recency] nor [relevancy]. *)
Lemma addQuery_sort_order_witness :
  url.index (queryOf (addQuery sampleOpts sampleRequest)) "sort_order"
  = url.index (queryOf sampleRequest) "sort_order" ++ ["oldest first"]
  /\ queryOf (addQuery_full sampleFullOpts (freshRequest "GET" "/2/tweets/search/all"))
       !! "sort_order" = Some ["oldest first"].
Proof.
  pose proof (addQuery_sort_order_verbatim sampleOpts sampleFullOpts
                sampleRequest "GET" "/2/tweets/search/all") as [H1 H2].
  split.
  - apply H1. discriminate.
  - apply H2. discriminate.
Defined.

(** Zero-valued options on a request with two parameters and on a request
    without a query. *)
Lemma addQuery_zero_options_witness :
  queryOf (addQuery zeroOpts sampleRequest) = queryOf sampleRequest
  /\ addQuery zeroOpts sampleRequest
     = setRawQuery sampleRequest (url.Encode (queryOf sampleRequest))
  /\ addQuery_user zeroUserOpts (freshRequest "GET" "/2/users")
     = freshRequest "GET" "/2/users".
Proof.
  pose proof (addQuery_zero_options_keep_parameters zeroOpts zeroUserOpts
                sampleRequest "a") as (H & _).
  pose proof (addQuery_zero_options_keep_parameters zeroOpts zeroUserOpts
                (freshRequest "GET" "/2/users") "a") as (_ & Hu & _).
  assert (zeroValued zeroOpts) as Hz by (vm_compute; repeat split).
  assert (zeroValued_user zeroUserOpts) as Hzu by (vm_compute; repeat split).
  destruct (H Hz) as (Hq & _ & Hne). destruct (Hu Hzu) as (_ & Hempty & _).
  split; [exact Hq|]. split.
  - apply Hne. vm_compute. discriminate.
  - apply Hempty. reflexivity.
Defined.

(** ** Stream rules: validation and the wire form of an ID batch *)
Section RuleFacts.
Context {P : Payloads}.

Lemma validate_Some (t : TweetSearchStreamRule) (e : error) :
  validate t = Some e ->
  Value t = ""
  /\ e = Errorf "tweet search stream rule value is required: " ErrParameter.
Proof.
  unfold validate. destruct (Value t); simpl; [|done].
  by intros [= <-].
Qed.

Lemma validate_id_Some (t : TweetSearchStreamRuleID) (e : error) :
  validate_id t = Some e ->
  t = "" /\ e = Errorf "tweet search rule id is required " ErrParameter.
Proof.
  unfold validate_id. destruct t; simpl; [|done].
  by intros [= <-].
Qed.

(** C4. [validate] returns an error exactly for a rule whose value is the
    empty string, the error wraps [ErrParameter], and a rule with a
    non-empty value gets no error; likewise for a rule ID. *)
Theorem validate_fails_iff_empty
    (t : TweetSearchStreamRule) (id : TweetSearchStreamRuleID) :
  (is_Some (validate t) <-> Value t = "")
  /\ (validate t = None <-> Value t <> "")
  /\ (forall e, validate t = Some e -> IsErrParameter e = true)
  /\ (is_Some (validate_id id) <-> id = "")
  /\ (validate_id id = None <-> id <> "")
  /\ (forall e, validate_id id = Some e -> IsErrParameter e = true).
Proof.
  repeat split.
  - intros [e He]. by apply validate_Some in He as [? _].
  - intros H. unfold validate. rewrite H. by eexists.
  - intros H Hv. unfold validate in H. by rewrite Hv in H.
  - intros H. unfold validate. by destruct (Value t).
  - by intros e [_ ->]%validate_Some.
  - intros [e He]. by apply validate_id_Some in He as [? _].
  - intros ->. by eexists.
  - by intros H ->.
  - intros H. unfold validate_id. by destruct id.
  - by intros e [_ ->]%validate_id_Some.
Qed.

Lemma validate_rules_app (pre post : list TweetSearchStreamRule) :
  Forall (fun r => validate r = None) pre ->
  validate_rules (pre ++ post) = validate_rules post.
Proof.
  induction 1 as [|r pre Hr _ IH]; [done|]. simpl. by rewrite Hr.
Qed.

Lemma validate_ids_app (pre post : list TweetSearchStreamRuleID) :
  Forall (fun i => validate_id i = None) pre ->
  validate_ids (pre ++ post) = validate_ids post.
Proof.
  induction 1 as [|r pre Hr _ IH]; [done|]. simpl. by rewrite Hr.
Qed.

(** C5. Batch validation returns no error when every element is valid, the
    empty batch included; otherwise it returns the error [validate] gives
    for the first invalid element in the order of the batch, whatever
    comes after it. *)
Theorem validate_batch_first_invalid
    (rules : list TweetSearchStreamRule)
    (ids : list TweetSearchStreamRuleID) :
  (Forall (fun r => validate r = None) rules -> validate_rules rules = None)
  /\ (forall pre r post,
        rules = pre ++ r :: post ->
        Forall (fun r => validate r = None) pre -> validate r <> None ->
        validate_rules rules = validate r)
  /\ (Forall (fun i => validate_id i = None) ids -> validate_ids ids = None)
  /\ (forall pre i post,
        ids = pre ++ i :: post ->
        Forall (fun i => validate_id i = None) pre -> validate_id i <> None ->
        validate_ids ids = validate_id i).
Proof.
  repeat split.
  - intros H. rewrite <- (right_id_L [] (++) rules).
    by rewrite validate_rules_app.
  - intros pre r post -> Hpre Hr. rewrite validate_rules_app by done.
    simpl. by destruct (validate r).
  - intros H. rewrite <- (right_id_L [] (++) ids).
    by rewrite validate_ids_app.
  - intros pre i post -> Hpre Hi. rewrite validate_ids_app by done.
    simpl. by destruct (validate_id i).
Qed.

Lemma toStringArray_range_take (i : nat) (t : list TweetSearchStreamRuleID)
    (ids : list string) :
  length ids = (i + length t)%nat ->
  toStringArray_range i t ids = take i ids ++ t.
Proof.
  unfold TweetSearchStreamRuleID in *.
  revert i ids. induction t as [|id t IH]; intros i ids Hlen; simpl in *.
  - rewrite (right_id_L [] (++)). rewrite take_ge; [done|lia].
  - rewrite IH by (rewrite length_insert; lia).
    rewrite (take_S_r _ _ id) by (apply list_lookup_insert_eq; lia).
    rewrite take_insert_ge by lia. by rewrite <- (assoc_L (++)).
Qed.

(** C9. The wire form of an ID batch has the length of the batch and at
    every index the string of the ID at that index. *)
Theorem toStringArray_preserves_order (t : list TweetSearchStreamRuleID) :
  length (toStringArray t) = length t
  /\ (forall i : nat, toStringArray t !! i = t !! i)
  /\ toStringArray t = t.
Proof.
  assert (toStringArray t = t) as ->; [|done].
  unfold toStringArray. rewrite toStringArray_range_take.
  - done.
  - by rewrite length_replicate.
Qed.

End RuleFacts.

(** A rule and an ID with and without a value. *)
Lemma validate_fails_iff_empty_witness :
  is_Some (validate (P := samplePayloads) (mkTweetSearchStreamRule "" "cats"))
  /\ validate (P := samplePayloads)
       (mkTweetSearchStreamRule "cat has:images" "cats") = None
  /\ is_Some (validate_id (P := samplePayloads) "")
  /\ validate_id (P := samplePayloads) "1165037377523306497" = None.
Proof.
  pose proof (validate_fails_iff_empty (P := samplePayloads)
                (mkTweetSearchStreamRule "" "cats") "")
    as (H1 & _ & _ & H4 & _).
  pose proof (validate_fails_iff_empty (P := samplePayloads)
                (mkTweetSearchStreamRule "cat has:images" "cats")
                "1165037377523306497") as (_ & H2 & _ & _ & H5 & _).
  split; [apply H1; reflexivity|]. split; [apply H2; discriminate|].
  split; [apply H4; reflexivity|]. apply H5; discriminate.
Defined.

(** The batch of the spec: the second rule has no value. *)
Lemma validate_batch_witness :
  validate_rules (P := samplePayloads)
    [mkTweetSearchStreamRule "a" ""; mkTweetSearchStreamRule "" ""]
  = validate (mkTweetSearchStreamRule "" "")
  /\ validate_ids (P := samplePayloads) ["1"; "2"] = None.
Proof.
  pose proof (validate_batch_first_invalid (P := samplePayloads)
                [mkTweetSearchStreamRule "a" ""; mkTweetSearchStreamRule "" ""]
                ["1"; "2"]) as (_ & H & Hids & _).
  split.
  - apply (H [mkTweetSearchStreamRule "a" ""] (mkTweetSearchStreamRule "" "") []).
    + reflexivity.
    + repeat constructor.
    + discriminate.
  - apply Hids. repeat constructor.
Defined.

(** ** The response decoder *)
Section DecoderFacts.
Context {P : Payloads}.
Variable unmarshalErrorResponse :
  list Byte.byte -> ErrorResponse -> ErrorResponse * option error.
Variable unmarshalTweetRaw :
  list Byte.byte -> TweetRaw -> TweetRaw * option error.
Variable unmarshalTweetRecentSearchResponse :
  list Byte.byte -> TweetRecentSearchResponse ->
  TweetRecentSearchResponse * (RateLimit -> RateLimit) * option error.
Variables rateFromHeader dailyAppRateFromHeader dailyUserRateFromHeader :
  http.Header -> option RateLimit.

Local Abbreviation build :=
  (Build unmarshalErrorResponse unmarshalTweetRaw
     unmarshalTweetRecentSearchResponse rateFromHeader
     dailyAppRateFromHeader dailyUserRateFromHeader).

(** C6. With a status other than 200, [Build] never returns a response.
    When the body has been read: if it decodes as an [ErrorResponse], the
    error is that value with the status code and the three rate limits of
    the headers written into it; if it does not, the error is an
    [HTTPError] that holds the status code and the three rate limits and
    nothing of the body. *)
Theorem Build_non_200_is_API_error
    (statusCode : Z) (headers : http.Header) (body : Reader)
    (buffer : list Byte.byte) :
  statusCode <> http.StatusOK ->
  (build statusCode headers body).1 = None
  /\ is_Some (build statusCode headers body).2
  /\ (ReadAll body = (buffer, None) ->
      let rl := rateFromHeader headers in
      let darl := dailyAppRateFromHeader headers in
      let durl := dailyUserRateFromHeader headers in
      match unmarshalErrorResponse buffer
              (mkErrorResponse 0 zeroErrorDetail None None None) with
      | (e, None) =>
          build statusCode headers body
          = (None,
             Some (ErrorResponse_
                     (mkErrorResponse statusCode (erDetail e) rl darl durl)))
      | (_, Some _) =>
          build statusCode headers body
          = (None, Some (HTTPError_ (mkHTTPError statusCode rl darl durl)))
      end).
Proof.
  intros Hstatus. apply Z.eqb_neq in Hstatus.
  unfold Build, ReadAll. destruct body as [content [err|]]; simpl.
  { split; [done|]. split; [by eexists|]. done. }
  rewrite Hstatus. simpl.
  destruct (unmarshalErrorResponse content _) as [e [err|]] eqn:He.
  - split; [done|]. split; [by eexists|]. intros [= <-]. by rewrite He.
  - split; [done|]. split; [by eexists|]. intros [= <-]. by rewrite He.
Qed.

(** What the error after a failed decoding pass at status 200 holds.  When
    the first pass fails, the rate limit of the error is the one read from
    the headers.  When the second pass fails, it is the object the headers
    gave as the second pass leaves it: the header reading only if that pass
    wrote nothing to it. *)
Lemma Build_200_decode_error
    (headers : http.Header) (body : Reader) (buffer : list Byte.byte)
    (err : error) :
  ReadAll body = (buffer, None) ->
  ((unmarshalTweetRaw buffer zeroTweetRaw).2 = Some err ->
   build http.StatusOK headers body
   = (None,
      Some (ResponseDecodeError "tweet recent search" err
              (rateFromHeader headers))))
  /\ (forall raw resp write,
        unmarshalTweetRaw buffer zeroTweetRaw = (raw, None) ->
        unmarshalTweetRecentSearchResponse buffer
          (mkTweetRecentSearchResponse (Some raw)
             (Some (mkTweetRecentSearchMeta "" "" 0 ""))
             (rateFromHeader headers))
        = (resp, write, Some err) ->
        build http.StatusOK headers body
        = (None,
           Some (ResponseDecodeError "tweet recent search" err
                   (write <$> rateFromHeader headers)))).
Proof.
  intros Hread. unfold Build. rewrite Hread. simpl. split.
  - intros Hraw.
    destruct (unmarshalTweetRaw buffer zeroTweetRaw) as [raw o].
    simpl in Hraw. by subst o.
  - intros raw resp write Hraw Hresp. by rewrite Hraw, Hresp.
Qed.

End DecoderFacts.

(** A 401 with a body that decodes and a 503 with one that does not. *)
Lemma Build_non_200_witness :
  sampleBuild 401 sampleHeaders (mkReader [Byte.x7b; Byte.x7d] None)
  = (None,
     Some (ErrorResponse_
             (mkErrorResponse (P := samplePayloads) 401 "Unauthorized"
                (Some (mkRateLimit 450 449 1700000000)) None None)))
  /\ sampleBuild 503 sampleHeaders (mkReader [Byte.x3c] None)
     = (None,
        Some (HTTPError_
                (mkHTTPError 503 (Some (mkRateLimit 450 449 1700000000))
                   None None))).
Proof.
  split.
  - apply (proj2 (proj2 (Build_non_200_is_API_error (P := samplePayloads)
             (sampleUnmarshal sampleError)
             (sampleUnmarshal [Byte.x7b; Byte.x7d]) sampleUnmarshalResponse
             (sampleRate "X-Rate-Limit-Limit")
             (sampleRate "X-App-Limit-24hour-Limit")
             (sampleRate "X-User-Limit-24hour-Limit") 401 sampleHeaders
             (mkReader [Byte.x7b; Byte.x7d] None) [Byte.x7b; Byte.x7d]
             ltac:(discriminate)))).
    reflexivity.
  - apply (proj2 (proj2 (Build_non_200_is_API_error (P := samplePayloads)
             (sampleUnmarshal sampleError)
             (sampleUnmarshal [Byte.x7b; Byte.x7d]) sampleUnmarshalResponse
             (sampleRate "X-Rate-Limit-Limit")
             (sampleRate "X-App-Limit-24hour-Limit")
             (sampleRate "X-User-Limit-24hour-Limit") 503 sampleHeaders
             (mkReader [Byte.x3c] None) [Byte.x3c]
             ltac:(discriminate)))).
    reflexivity.
Defined.

(** C7, where the code departs from it.  Status 200, headers that give the
    limit 450 and a body that holds a [ratelimit] object with the limit 7
    and a number under [meta]: the first pass succeeds, the second pass
    writes 7 through the pointer the response shares with [rl] and then
    fails on [meta], and the error [Build] returns holds the limit 7 of the
    body, not the 450 of the headers.  A body that fails the first pass gets
    the rate limit of the headers. *)
Lemma Build_200_decode_failure_body_limit :
  overwriteBuild 200 sampleHeaders (mkReader overwriteBody None)
  = (None,
     Some (ResponseDecodeError "tweet recent search"
             (LibraryError
                "json: cannot unmarshal number into Go struct field TweetRecentSearchResponse.meta of type twitter.TweetRecentSearchMeta")
             (Some (mkRateLimit 7 449 1700000000))))
  /\ sampleRate "X-Rate-Limit-Limit" sampleHeaders
     = Some (mkRateLimit 450 449 1700000000)
  /\ overwriteBuild 200 sampleHeaders (mkReader [Byte.x3c] None)
     = (None,
        Some (ResponseDecodeError "tweet recent search"
                (LibraryError "invalid character looking for beginning of value")
                (Some (mkRateLimit 450 449 1700000000)))).
Proof. vm_compute. repeat split. Qed.

(** * Further facts *)

(** ** The option encoder: frame, edge cases and composition *)
Section EncoderMore.
Context {L : Lookups}.
Import strings url url_facts.

Lemma Encode_nonempty (q : Values) : populated q -> q <> ∅ -> Encode q <> "".
Proof.
  intros Hq Hne HE. apply Hne.
  rewrite <- (ParseQuery_Encode q Hq). by rewrite HE.
Qed.

Lemma addPairs_nonempty (m : Values) (ps : list (string * string)) :
  m <> ∅ \/ ps <> [] -> (0 <? size (addPairs m ps))%nat = true.
Proof.
  intros H. apply Nat.ltb_lt.
  destruct (size (addPairs m ps)) eqn:Hsz; [|lia].
  apply addPairs_size_0 in Hsz as [-> ->]. by destruct H.
Qed.

Lemma pairsOfTable_nil_inv (tbl : list (string * option string)) :
  pairsOfTable tbl = [] -> Forall (fun e => e.2 = None) tbl.
Proof.
  induction tbl as [|[k [v|]] tbl IH]; intros H.
  - constructor.
  - by rewrite pairsOfTable_cons in H.
  - rewrite pairsOfTable_cons in H. constructor; [done|]. by apply IH.
Qed.

Lemma lookup_mergeQuery_other (tbl : list (string * option string))
    (req : http.Request) (k : string) :
  k ∉ tbl.*1 ->
  queryOf (mergeQuery (pairsOfTable tbl) req) !! k = queryOf req !! k.
Proof.
  intros Hk. unfold queryOf. rewrite Query_mergeQuery, lookup_addPairs.
  by rewrite valuesOf_pairsOfTable_other.
Qed.

(** X1. A key that is not one of the keys of the method keeps, under every
    options value, exactly the values the request had for it, and stays
    absent when the request did not have it. *)
Theorem addQuery_other_keys_untouched
    (t : TweetRecentSearchOpts) (f : TweetSearchOpts) (u : UserLookupOpts)
    (req : http.Request) (k : string) :
  (k ∉ searchKeys ->
   queryOf (addQuery t req) !! k = queryOf req !! k
   /\ queryOf (addQuery_full f req) !! k = queryOf req !! k)
  /\ (k ∉ userKeys -> queryOf (addQuery_user u req) !! k = queryOf req !! k).
Proof.
  rewrite addQuery_full_asRecent, !addQuery_mergeQuery,
    addQuery_user_mergeQuery, !emitted_documented, emitted_user_documented.
  split.
  - intros Hk. split; by apply lookup_mergeQuery_other.
  - intros Hk. by apply lookup_mergeQuery_other.
Qed.

Lemma RawQuery_mergeQuery_empty (tbl : list (string * option string))
    (req : http.Request) :
  RawQuery (http.URL (mergeQuery (pairsOfTable tbl) req)) = ""
  <-> RawQuery (http.URL req) = "" /\ Forall (fun e => e.2 = None) tbl.
Proof.
  rewrite RawQuery_mergeQuery. cbv zeta. split.
  - destruct (0 <? size _)%nat eqn:Hsz.
    + intros HE. exfalso. revert HE. apply Encode_nonempty.
      * apply populated_addPairs, populated_ParseQuery.
      * intros Hq. rewrite Hq in Hsz. done.
    + intros Hraw. split; [done|]. apply pairsOfTable_nil_inv.
      apply Nat.ltb_ge in Hsz.
      assert (size (addPairs (ParseQuery (RawQuery (http.URL req)))
                      (pairsOfTable tbl)) = 0%nat) as Hz by lia.
      by apply addPairs_size_0 in Hz as [_ ?].
  - intros [Hraw Hnone]. rewrite (pairsOfTable_nil _ Hnone), Hraw. done.
Qed.

(** X2. [addQuery] never writes an empty query string: the request has an
    empty query after the method exactly when it had an empty query before
    it and no field is emitted. *)
Theorem addQuery_empty_query_iff
    (t : TweetRecentSearchOpts) (f : TweetSearchOpts) (u : UserLookupOpts)
    (req : http.Request) :
  (RawQuery (http.URL (addQuery t req)) = ""
   <-> RawQuery (http.URL req) = ""
       /\ Forall (fun e => e.2 = None) (documented t))
  /\ (RawQuery (http.URL (addQuery_full f req)) = ""
      <-> RawQuery (http.URL req) = ""
          /\ Forall (fun e => e.2 = None) (documented (asRecent f)))
  /\ (RawQuery (http.URL (addQuery_user u req)) = ""
      <-> RawQuery (http.URL req) = ""
          /\ Forall (fun e => e.2 = None) (documented_user u)).
Proof.
  rewrite addQuery_full_asRecent, !addQuery_mergeQuery,
    addQuery_user_mergeQuery, !emitted_documented, emitted_user_documented.
  split; [|split]; apply RawQuery_mergeQuery_empty.
Qed.

Lemma RawQuery_mergeQuery_parsed (tbl : list (string * option string))
    (req req' : http.Request) :
  queryOf req = queryOf req' ->
  queryOf req <> ∅ \/ ~ Forall (fun e => e.2 = None) tbl ->
  RawQuery (http.URL (mergeQuery (pairsOfTable tbl) req))
  = RawQuery (http.URL (mergeQuery (pairsOfTable tbl) req')).
Proof.
  unfold queryOf, Query. intros Heq Hw.
  rewrite !RawQuery_mergeQuery, <- Heq. cbv zeta.
  rewrite addPairs_nonempty; [done|].
  destruct Hw as [Hq|Hn]; [by left|right].
  intros Hnil. apply Hn. apply pairsOfTable_nil_inv, Hnil.
Qed.

(** X3. Once the request has a parameter or a field is emitted, the query
    string [addQuery] writes depends on the query of the request only
    through the parameters it parses to: segments that hold a semicolon or a
    malformed escape, empty segments and the order of the segments of
    different keys leave no trace. *)
Theorem addQuery_reads_parsed_query_only
    (t : TweetRecentSearchOpts) (u : UserLookupOpts)
    (req req' : http.Request) :
  queryOf req = queryOf req' ->
  (queryOf req <> ∅ \/ ~ Forall (fun e => e.2 = None) (documented t) ->
   RawQuery (http.URL (addQuery t req))
   = RawQuery (http.URL (addQuery t req')))
  /\ (queryOf req <> ∅ \/ ~ Forall (fun e => e.2 = None) (documented_user u) ->
      RawQuery (http.URL (addQuery_user u req))
      = RawQuery (http.URL (addQuery_user u req'))).
Proof.
  intros Heq.
  rewrite !addQuery_mergeQuery, !addQuery_user_mergeQuery,
    emitted_documented, emitted_user_documented.
  split; intros Hw; by apply RawQuery_mergeQuery_parsed.
Qed.

(** Two merges in a row are the merge of the two lists of pairs. *)
Lemma mergeQuery_mergeQuery (ps qs : list (string * string))
    (req : http.Request) :
  mergeQuery qs (mergeQuery ps req) = mergeQuery (ps ++ qs) req.
Proof.
  unfold mergeQuery at 1 3. rewrite Query_mergeQuery, <- addPairs_app.
  unfold writeBack. destruct (0 <? size _)%nat eqn:Hsz.
  - unfold mergeQuery, writeBack.
    by destruct (0 <? size (addPairs (Query (http.URL req)) ps))%nat.
  - apply Nat.ltb_ge in Hsz.
    destruct (addPairs_size_0 (Query (http.URL req)) (ps ++ qs)) as [Hq Hps];
      [lia|].
    apply app_eq_nil in Hps as [-> _].
    unfold mergeQuery, writeBack. by rewrite Hq.
Qed.

Lemma addPairs_comm (m : Values) (ps qs : list (string * string)) :
  (forall k, valuesOf k ps = [] \/ valuesOf k qs = []) ->
  addPairs m (ps ++ qs) = addPairs m (qs ++ ps).
Proof.
  intros Hdis. apply map_eq. intros k.
  rewrite !lookup_addPairs, !valuesOf_app.
  destruct (Hdis k) as [-> | ->]; by rewrite (right_id_L [] (++)).
Qed.

Lemma mergeQuery_comm (ps qs : list (string * string)) (req : http.Request) :
  (forall k, valuesOf k ps = [] \/ valuesOf k qs = []) ->
  mergeQuery qs (mergeQuery ps req) = mergeQuery ps (mergeQuery qs req).
Proof.
  intros Hdis. rewrite !mergeQuery_mergeQuery. unfold mergeQuery.
  by rewrite (addPairs_comm _ ps qs).
Qed.

(** X4. Search options and user-lookup options can be encoded into one
    request in either order with the same result, as long as each of the
    three keys they share is emitted by at most one of them. *)
Theorem addQuery_user_commute
    (t : TweetRecentSearchOpts) (u : UserLookupOpts) (req : http.Request) :
  (Expansions t = [] \/ uExpansions u = []) ->
  (TweetFields t = [] \/ uTweetFields u = []) ->
  (UserFields t = [] \/ uUserFields u = []) ->
  addQuery t (addQuery_user u req) = addQuery_user u (addQuery t req).
Proof.
  intros He Ht Hu.
  rewrite !addQuery_mergeQuery, !addQuery_user_mergeQuery.
  apply mergeQuery_comm. intros k.
  rewrite emitted_documented, emitted_user_documented.
  destruct (decide (k ∈ (documented_user u).*1)) as [Hin|Hout];
    [|left; by apply valuesOf_pairsOfTable_other].
  pose proof (NoDup_documented t) as Hnt.
  pose proof (NoDup_documented_user u) as Hnu.
  simpl in Hin.
  repeat (apply elem_of_cons in Hin as [->|Hin]);
    [..|by apply elem_of_nil in Hin].
  - destruct He as [Hz|Hz].
    + right. rewrite (valuesOf_pairsOfTable _ _ None); [done|done|].
      unfold documented. rewrite Hz. set_solver.
    + left. rewrite (valuesOf_pairsOfTable _ _ None); [done|done|].
      unfold documented_user. rewrite Hz. set_solver.
  - destruct Ht as [Hz|Hz].
    + right. rewrite (valuesOf_pairsOfTable _ _ None); [done|done|].
      unfold documented. rewrite Hz. set_solver.
    + left. rewrite (valuesOf_pairsOfTable _ _ None); [done|done|].
      unfold documented_user. rewrite Hz. set_solver.
  - destruct Hu as [Hz|Hz].
    + right. rewrite (valuesOf_pairsOfTable _ _ None); [done|done|].
      unfold documented. rewrite Hz. set_solver.
    + left. rewrite (valuesOf_pairsOfTable _ _ None); [done|done|].
      unfold documented_user. rewrite Hz. set_solver.
Qed.

(** *** The query string written into a request without a query *)

Lemma elem_of_pairsOfTable_keys (tbl : list (string * option string))
    (k : string) :
  k ∈ (pairsOfTable tbl).*1 -> k ∈ tbl.*1.
Proof.
  induction tbl as [|[k' [v|]] tbl IH]; rewrite ?pairsOfTable_cons; simpl.
  - done.
  - intros [->|H]%elem_of_cons; [left|right; by apply IH].
  - intros H. right. by apply IH.
Qed.

Lemma NoDup_pairsOfTable (tbl : list (string * option string)) :
  NoDup tbl.*1 -> NoDup (pairsOfTable tbl).*1.
Proof.
  induction tbl as [|[k [v|]] tbl IH]; rewrite ?pairsOfTable_cons; simpl.
  - done.
  - intros [Hk Hnd]%NoDup_cons. apply NoDup_cons. split; [|by apply IH].
    intros Hin. by apply Hk, elem_of_pairsOfTable_keys.
  - intros [_ Hnd]%NoDup_cons. by apply IH.
Qed.

Lemma StronglySorted_pairsOfTable (tbl : list (string * option string)) :
  StronglySorted String.le tbl.*1 ->
  StronglySorted String.le (pairsOfTable tbl).*1.
Proof.
  induction tbl as [|[k [v|]] tbl IH]; rewrite ?pairsOfTable_cons; simpl.
  - done.
  - intros [Hs Hk]%StronglySorted_inv. constructor; [by apply IH|].
    apply Forall_forall. intros k' Hin.
    rewrite Forall_forall in Hk. by apply Hk, elem_of_pairsOfTable_keys.
  - intros [Hs _]%StronglySorted_inv. by apply IH.
Qed.

Lemma valuesOf_absent (ps : list (string * string)) (k : string) :
  k ∉ ps.*1 -> valuesOf k ps = [].
Proof.
  induction ps as [|[k' x] ps IH]; [done|]. simpl.
  intros [Hne Hk]%not_elem_of_cons. rewrite valuesOf_cons.
  destruct (decide (k' = k)); [done|]. by apply IH.
Qed.

Lemma valuesOf_NoDup (ps : list (string * string)) (k x : string) :
  NoDup ps.*1 -> (k, x) ∈ ps -> valuesOf k ps = [x].
Proof.
  induction ps as [|[k' x'] ps IH]; intros Hnd Hin.
  - by apply elem_of_nil in Hin.
  - simpl in Hnd. apply NoDup_cons in Hnd as [Hk' Hnd].
    rewrite valuesOf_cons.
    apply elem_of_cons in Hin as [[= -> ->]|Hin].
    + destruct (decide (k' = k')); [|done]. by rewrite valuesOf_absent.
    + destruct (decide (k' = k)) as [->|_]; [|by apply IH].
      exfalso. apply Hk'. apply list_elem_of_fmap. by exists (k, x).
Qed.

Lemma pairsOf_keys (v : Values) (ps : list (string * string)) :
  (forall k x, (k, x) ∈ ps -> index v k = [x]) -> pairsOf v ps.*1 = ps.
Proof.
  induction ps as [|[k x] ps IH]; intros Hv; [done|].
  unfold pairsOf. simpl. fold (pairsOf v ps.*1).
  rewrite (Hv k x) by left. simpl. f_equal. apply IH.
  intros k' x' Hin. apply Hv. by right.
Qed.

(** The encoding of a map built from pairs with distinct keys in increasing
    order is the list of the rendered pairs. *)
Lemma Encode_addPairs_sorted (ps : list (string * string)) :
  StronglySorted String.le ps.*1 -> NoDup ps.*1 ->
  Encode (addPairs ∅ ps) = Join (renderPair <$> ps) "&".
Proof.
  intros Hs Hnd. rewrite Encode_Join. f_equal. f_equal. unfold pairs.
  assert (forall k x, (k, x) ∈ ps -> index (addPairs ∅ ps) k = [x]) as Hidx.
  { intros k x Hin. by rewrite index_addPairs, (valuesOf_NoDup _ _ x). }
  assert (sortedKeys (addPairs ∅ ps) = ps.*1) as ->; [|by apply pairsOf_keys].
  apply (Sorted_unique String.le).
  - apply Sorted_merge_sort, _.
  - by apply StronglySorted_Sorted.
  - unfold sortedKeys. rewrite merge_sort_Permutation.
    apply NoDup_Permutation; [apply NoDup_fst_map_to_list|done|].
    intros k. rewrite !list_elem_of_fmap. split.
    + intros [[k' vs] [-> Hin%elem_of_map_to_list]]. simpl.
      rewrite lookup_addPairs, lookup_empty in Hin.
      destruct (decide (k' ∈ ps.*1)) as [Hk|Hk].
      * by apply list_elem_of_fmap in Hk.
      * by rewrite (valuesOf_absent _ _ Hk) in Hin.
    + intros [[k' x] [-> Hin]]. simpl.
      exists (k', [x]). split; [done|]. apply elem_of_map_to_list.
      rewrite lookup_addPairs, (valuesOf_NoDup _ _ x) by done. done.
Qed.

Lemma addPairs_table_equiv (tbl tbl' : list (string * option string))
    (m : Values) :
  NoDup tbl.*1 -> NoDup tbl'.*1 -> (forall e, e ∈ tbl <-> e ∈ tbl') ->
  addPairs m (pairsOfTable tbl) = addPairs m (pairsOfTable tbl').
Proof.
  intros Hnd Hnd' Heq. apply map_eq. intros k. rewrite !lookup_addPairs.
  assert (valuesOf k (pairsOfTable tbl) = valuesOf k (pairsOfTable tbl'))
    as ->; [|done].
  destruct (decide (k ∈ tbl.*1)) as [Hin|Hout].
  - apply list_elem_of_fmap in Hin as [[k' o] [-> Hin]]. simpl.
    rewrite (valuesOf_pairsOfTable tbl _ o), (valuesOf_pairsOfTable tbl' _ o);
      [done|done|by apply Heq|done|done].
  - rewrite !valuesOf_pairsOfTable_other; [done| |done].
    intros [[k' o] [-> Hin]]%list_elem_of_fmap. apply Hout.
    apply list_elem_of_fmap. exists (k', o). split; [done|]. by apply Heq.
Qed.

Lemma RawQuery_mergeQuery_fresh (ps : list (string * string))
    (method path : string) :
  RawQuery (http.URL (mergeQuery ps (freshRequest method path)))
  = Encode (addPairs ∅ ps).
Proof.
  rewrite RawQuery_mergeQuery. simpl.
  change (ParseQuery "") with (∅ : Values). cbv zeta.
  destruct (0 <? size _)%nat eqn:Hsz; [done|].
  apply Nat.ltb_ge in Hsz.
  assert (size (addPairs ∅ ps) = 0%nat) as Hz by lia.
  apply map_size_empty_inv in Hz. by rewrite Hz.
Qed.

Lemma wireForm_sorted (tbl : list (string * option string)) :
  StronglySorted String.le tbl.*1 -> NoDup tbl.*1 ->
  Forall (fun k => QueryEscape k = k) tbl.*1 ->
  Encode (addPairs ∅ (pairsOfTable tbl)) = wireForm tbl.
Proof.
  intros Hs Hnd Hesc.
  rewrite Encode_addPairs_sorted
    by auto using StronglySorted_pairsOfTable, NoDup_pairsOfTable.
  unfold wireForm. f_equal. apply list_fmap_ext. intros i [k x] Hi.
  unfold renderPair. simpl. rewrite Forall_forall in Hesc.
  rewrite Hesc; [done|]. apply elem_of_pairsOfTable_keys.
  apply list_elem_of_fmap. exists (k, x). split; [done|].
  by apply list_elem_of_lookup_2 in Hi.
Qed.

Lemma documented_sorted_equiv (t : TweetRecentSearchOpts)
    (e : string * option string) :
  e ∈ documented t <-> e ∈ documented_sorted t.
Proof.
  unfold documented, documented_sorted.
  rewrite !elem_of_cons, !elem_of_nil. tauto.
Qed.

Lemma documented_sorted_keys (t : TweetRecentSearchOpts) :
  StronglySorted String.le (documented_sorted t).*1
  /\ NoDup (documented_sorted t).*1
  /\ Forall (fun k => QueryEscape k = k) (documented_sorted t).*1.
Proof.
  split; [|split].
  - apply (bool_decide_unpack _). by vm_compute.
  - apply (bool_decide_unpack _). by vm_compute.
  - simpl. repeat constructor.
Qed.

Lemma documented_user_keys (u : UserLookupOpts) :
  StronglySorted String.le (documented_user u).*1
  /\ Forall (fun k => QueryEscape k = k) (documented_user u).*1.
Proof.
  split.
  - apply (bool_decide_unpack _). by vm_compute.
  - simpl. repeat constructor.
Qed.

(** X5. The query string written into a request without a query is, for
    the fields that are emitted, [key=value] with the value escaped and the
    key as it is, the keys in increasing byte order whatever the order of
    the fields in the struct, joined with [&]; it is empty when no field is
    emitted. *)
Theorem addQuery_wire_form
    (t : TweetRecentSearchOpts) (f : TweetSearchOpts) (u : UserLookupOpts)
    (method path : string) :
  RawQuery (http.URL (addQuery t (freshRequest method path)))
  = wireForm (documented_sorted t)
  /\ RawQuery (http.URL (addQuery_full f (freshRequest method path)))
     = wireForm (documented_sorted (asRecent f))
  /\ RawQuery (http.URL (addQuery_user u (freshRequest method path)))
     = wireForm (documented_user u).
Proof.
  rewrite addQuery_full_asRecent, !addQuery_mergeQuery,
    addQuery_user_mergeQuery, !emitted_documented, emitted_user_documented.
  rewrite !RawQuery_mergeQuery_fresh.
  assert (forall t, Encode (addPairs ∅ (pairsOfTable (documented t)))
                    = wireForm (documented_sorted t)) as Hsearch.
  { intros t'. destruct (documented_sorted_keys t') as (Hs & Hnd & Hesc).
    rewrite (addPairs_table_equiv _ (documented_sorted t'))
      by auto using NoDup_documented, documented_sorted_equiv.
    by apply wireForm_sorted. }
  split; [apply Hsearch|]. split; [apply Hsearch|].
  destruct (documented_user_keys u) as (Hs & Hesc).
  apply wireForm_sorted; auto using NoDup_documented_user.
Qed.

End EncoderMore.

(** ** Stream rules: batches *)
Section RuleMore.
Context {P : Payloads}.

Lemma validate_None (t : TweetSearchStreamRule) :
  validate t = None <-> Value t <> "".
Proof. unfold validate. destruct (Value t); simpl; split; done. Qed.

Lemma validate_id_None (t : TweetSearchStreamRuleID) :
  validate_id t = None <-> t <> "".
Proof. unfold validate_id. destruct t; simpl; split; done. Qed.

(** X6. A batch passes validation exactly when every element has a value.
    When it fails, the error is one fixed error that wraps [ErrParameter]:
    it does not tell which element was invalid or how many were. *)
Theorem validate_batch_passes_iff
    (rules : list TweetSearchStreamRule)
    (ids : list TweetSearchStreamRuleID) :
  (validate_rules rules = None <-> Forall (fun r => Value r <> "") rules)
  /\ (forall e, validate_rules rules = Some e ->
        e = Errorf "tweet search stream rule value is required: " ErrParameter)
  /\ (validate_ids ids = None <-> Forall (fun i => i <> "") ids)
  /\ (forall e, validate_ids ids = Some e ->
        e = Errorf "tweet search rule id is required " ErrParameter).
Proof.
  split; [|split; [|split]].
  - induction rules as [|r rules IH]; simpl.
    + split; [constructor|done].
    + rewrite Forall_cons, <- IH, <- validate_None.
      destruct (validate r); split; (done || by intros [? ?] || by split).
  - induction rules as [|r rules IH]; simpl; [done|].
    intros e. destruct (validate r) as [e'|] eqn:Hr; [|apply IH].
    intros [= <-]. by apply validate_Some in Hr as [_ ?].
  - induction ids as [|i ids IH]; simpl.
    + split; [constructor|done].
    + rewrite Forall_cons, <- IH, <- validate_id_None.
      destruct (validate_id i); split; (done || by intros [? ?] || by split).
  - induction ids as [|i ids IH]; simpl; [done|].
    intros e. destruct (validate_id i) as [e'|] eqn:Hr; [|apply IH].
    intros [= <-]. by apply validate_id_Some in Hr as [_ ?].
Qed.

(** X7. Validating two batches put one after the other gives the error of
    the first batch if it has one, and the result of the second batch
    otherwise. *)
Theorem validate_batch_app
    (rules rules' : list TweetSearchStreamRule)
    (ids ids' : list TweetSearchStreamRuleID) :
  validate_rules (rules ++ rules')
  = match validate_rules rules with
    | Some err => Some err
    | None => validate_rules rules'
    end
  /\ validate_ids (ids ++ ids')
     = match validate_ids ids with
       | Some err => Some err
       | None => validate_ids ids'
       end.
Proof.
  split.
  - induction rules as [|r rules IH]; simpl; [done|]. by destruct (validate r).
  - induction ids as [|i ids IH]; simpl; [done|]. by destruct (validate_id i).
Qed.

Lemma toStringArray_id (t : list TweetSearchStreamRuleID) : toStringArray t = t.
Proof.
  unfold toStringArray. rewrite toStringArray_range_take; [done|].
  by rewrite length_replicate.
Qed.

Lemma toStringArray_range_checked_ok (i : nat)
    (t : list TweetSearchStreamRuleID) (ids : list string) :
  length ids = (i + length t)%nat ->
  toStringArray_range_checked i t ids = Some (toStringArray_range i t ids).
Proof.
  unfold TweetSearchStreamRuleID in *.
  revert i ids. induction t as [|id t IH]; intros i ids Hlen; simpl in *.
  - done.
  - destruct (decide (i < length ids)%nat) as [_|Hge]; [|lia].
    apply IH. rewrite length_insert. lia.
Qed.

(** X8. Every assignment [ids[i] = string(id)] of [toStringArray] is within
    the bounds of the slice made for it: the method never panics. *)
Theorem toStringArray_in_bounds (t : list TweetSearchStreamRuleID) :
  toStringArray_checked t = Some (toStringArray t).
Proof.
  unfold toStringArray_checked, toStringArray.
  apply toStringArray_range_checked_ok. by rewrite length_replicate.
Qed.

End RuleMore.

(** ** The response decoder: outcomes *)
Section DecoderMore.
Context {P : Payloads}.
Variable unmarshalErrorResponse :
  list Byte.byte -> ErrorResponse -> ErrorResponse * option error.
Variable unmarshalTweetRaw :
  list Byte.byte -> TweetRaw -> TweetRaw * option error.
Variable unmarshalTweetRecentSearchResponse :
  list Byte.byte -> TweetRecentSearchResponse ->
  TweetRecentSearchResponse * (RateLimit -> RateLimit) * option error.
Variables rateFromHeader dailyAppRateFromHeader dailyUserRateFromHeader :
  http.Header -> option RateLimit.

Local Abbreviation build :=
  (Build unmarshalErrorResponse unmarshalTweetRaw
     unmarshalTweetRecentSearchResponse rateFromHeader
     dailyAppRateFromHeader dailyUserRateFromHeader).

(** X9. [Build] returns either a response or an error, never both and never
    neither.  It returns a response exactly when the body was read, the
    status is 200 and both decoding passes succeed, the second one on the
    response that holds what the first one decoded. *)
Theorem Build_outcome
    (statusCode : Z) (headers : http.Header) (body : Reader) :
  (is_Some (build statusCode headers body).1
   <-> (build statusCode headers body).2 = None)
  /\ ((build statusCode headers body).1 = None
      <-> is_Some (build statusCode headers body).2)
  /\ (is_Some (build statusCode headers body).1
      <-> failure body = None
          /\ statusCode = http.StatusOK
          /\ (unmarshalTweetRaw (content body) zeroTweetRaw).2 = None
          /\ (unmarshalTweetRecentSearchResponse (content body)
                (mkTweetRecentSearchResponse
                   (Some (unmarshalTweetRaw (content body) zeroTweetRaw).1)
                   (Some (mkTweetRecentSearchMeta "" "" 0 ""))
                   (rateFromHeader headers))).2 = None).
Proof.
  unfold Build, ReadAll. destruct body as [data [err|]]; simpl.
  { repeat split; try done; try (by eexists); try (by intros [? ?]);
      by intros (? & ? & ? & ?). }
  destruct (Z.eqb_spec statusCode http.StatusOK) as [->|Hne]; simpl.
  - destruct (unmarshalTweetRaw data zeroTweetRaw) as [raw [err|]]; simpl.
    { repeat split; try done; try (by eexists); try (by intros [? ?]);
        by intros (? & ? & ? & ?). }
    destruct (unmarshalTweetRecentSearchResponse data _)
      as [[resp write] [err|]]; simpl;
      repeat split; try done; try (by eexists); try (by intros [? ?]);
        by intros (? & ? & ? & ?).
  - destruct (unmarshalErrorResponse data _) as [e [err|]]; simpl;
      repeat split; try done; try (by eexists); try (by intros [? ?]);
        by intros (? & ? & ? & ?).
Qed.

(** X10. When the body cannot be read, the error is the read error wrapped
    with the text of the method, whatever the status code, the headers, the
    decoders and the header readers are: no rate limit is attached to it,
    and it is a parameter error only if the read error is one. *)
Theorem Build_read_failure
    (unmarshalErrorResponse' :
       list Byte.byte -> ErrorResponse -> ErrorResponse * option error)
    (unmarshalTweetRaw' : list Byte.byte -> TweetRaw -> TweetRaw * option error)
    (unmarshalTweetRecentSearchResponse' :
       list Byte.byte -> TweetRecentSearchResponse ->
       TweetRecentSearchResponse * (RateLimit -> RateLimit) * option error)
    (rateFromHeader' dailyAppRateFromHeader' dailyUserRateFromHeader' :
       http.Header -> option RateLimit)
    (statusCode statusCode' : Z) (headers headers' : http.Header)
    (body : Reader) (err : error) :
  failure body = Some err ->
  build statusCode headers body
  = (None, Some (Errorf "tweet recent search response read: " err))
  /\ build statusCode headers body
     = Build unmarshalErrorResponse' unmarshalTweetRaw'
         unmarshalTweetRecentSearchResponse' rateFromHeader'
         dailyAppRateFromHeader' dailyUserRateFromHeader'
         statusCode' headers' body
  /\ (forall e, (build statusCode headers body).2 = Some e ->
        IsErrParameter e = IsErrParameter err).
Proof.
  intros Hfail. unfold Build, ReadAll. rewrite Hfail. simpl.
  split; [done|]. split; [done|]. by intros e [= <-].
Qed.

(** X11. With status 200, [Build] uses neither the decoder of the error
    envelope nor the two daily rate limits: no outcome at 200 carries a
    daily limit.  With another status, it uses neither of the two decoders
    of the search response. *)
Theorem Build_uses_only_its_branch
    (unmarshalErrorResponse' :
       list Byte.byte -> ErrorResponse -> ErrorResponse * option error)
    (unmarshalTweetRaw' : list Byte.byte -> TweetRaw -> TweetRaw * option error)
    (unmarshalTweetRecentSearchResponse' :
       list Byte.byte -> TweetRecentSearchResponse ->
       TweetRecentSearchResponse * (RateLimit -> RateLimit) * option error)
    (dailyAppRateFromHeader' dailyUserRateFromHeader' :
       http.Header -> option RateLimit)
    (statusCode : Z) (headers : http.Header) (body : Reader) :
  build http.StatusOK headers body
  = Build unmarshalErrorResponse' unmarshalTweetRaw
      unmarshalTweetRecentSearchResponse rateFromHeader
      dailyAppRateFromHeader' dailyUserRateFromHeader'
      http.StatusOK headers body
  /\ (statusCode <> http.StatusOK ->
      build statusCode headers body
      = Build unmarshalErrorResponse unmarshalTweetRaw'
          unmarshalTweetRecentSearchResponse' rateFromHeader
          dailyAppRateFromHeader dailyUserRateFromHeader
          statusCode headers body).
Proof.
  split.
  - unfold Build. by destruct (ReadAll body) as [data [err|]].
  - intros Hne%Z.eqb_neq. unfold Build.
    destruct (ReadAll body) as [data [err|]]; [done|]. by rewrite Hne.
Qed.

(** X12. A response that [Build] returns is what the second pass leaves of
    the response that held the rate limit read from the headers, the raw
    payload of the first pass and empty metadata.  So it holds that rate
    limit, or that payload, whenever the second pass, on this body, leaves
    the field as it finds it. *)
Theorem Build_success_fields
    (statusCode : Z) (headers : http.Header) (body : Reader)
    (resp : TweetRecentSearchResponse) :
  (build statusCode headers body).1 = Some resp ->
  let raw := (unmarshalTweetRaw (content body) zeroTweetRaw).1 in
  let v := mkTweetRecentSearchResponse (Some raw)
             (Some (mkTweetRecentSearchMeta "" "" 0 ""))
             (rateFromHeader headers) in
  let decoded :=
    (unmarshalTweetRecentSearchResponse (content body) v).1.1 in
  resp = decoded
  /\ (respRateLimit decoded = respRateLimit v ->
      respRateLimit resp = rateFromHeader headers)
  /\ (Raw decoded = Raw v -> Raw resp = Some raw).
Proof.
  unfold Build, ReadAll.
  destruct body as [data [err|]]; simpl; [done|].
  destruct (negb _); simpl.
  { by destruct (unmarshalErrorResponse data _) as [e [err|]]. }
  destruct (unmarshalTweetRaw data zeroTweetRaw) as [raw [err|]]; simpl;
    [done|].
  destruct (unmarshalTweetRecentSearchResponse data _)
    as [[resp' write] [err|]]; simpl; [done|].
  intros [= <-]. split; [done|]. split; intros ->; done.
Qed.

End DecoderMore.

(** ** The decimal form of [MaxResults] *)

Lemma QueryEscape_digits (d : Decimal.uint) :
  url.QueryEscape (NilEmpty.string_of_uint d) = NilEmpty.string_of_uint d.
Proof. induction d; simpl; by rewrite ?IHd. Qed.

(** X13. A positive [MaxResults] is written as its decimal digits: [Encode]
    leaves them as they are, and they read back as the number. *)
Theorem max_results_decimal (n : Z) :
  (0 < n)%Z ->
  url.QueryEscape (strconv.Itoa n) = strconv.Itoa n
  /\ Z.of_int <$> NilZero.int_of_string (strconv.Itoa n) = Some n.
Proof.
  intros Hn. unfold strconv.Itoa. destruct n as [|p|p]; [lia| |lia].
  split.
  - simpl. unfold NilZero.string_of_uint.
    destruct (Pos.to_uint p); try apply QueryEscape_digits. reflexivity.
  - rewrite NilZero.isi.
    + simpl. f_equal. apply (DecimalZ.of_to (Z.pos p)).
    + intros H. pose proof (DecimalZ.of_to (Z.pos p)) as Hz.
      rewrite H in Hz. discriminate Hz.
    + discriminate.
Qed.

(** ** The further facts at concrete inputs *)

(** The search parameter [query] survives the encoding of the options. *)
Lemma addQuery_other_keys_witness :
  queryOf (addQuery sampleOpts
             (http.mkRequest "GET"
                (url.mkURL "/2/tweets/search/recent" "query=golang")))
    !! "query"
  = queryOf (http.mkRequest "GET"
               (url.mkURL "/2/tweets/search/recent" "query=golang"))
      !! "query".
Proof.
  apply (proj1 (addQuery_other_keys_untouched sampleOpts zeroFullOpts
                  zeroUserOpts
                  (http.mkRequest "GET"
                     (url.mkURL "/2/tweets/search/recent" "query=golang"))
                  "query")).
  apply (bool_decide_unpack _). vm_compute. exact I.
Defined.

(** A query with a semicolon, a malformed escape and empty segments, and the
    query of its one well-formed parameter. *)
Lemma addQuery_reads_parsed_query_witness :
  url.RawQuery
    (http.URL (addQuery sampleOpts
       (http.mkRequest "GET"
          (url.mkURL "/2/tweets/search/recent" "a=1&b;c=2&%zz=3&&"))))
  = url.RawQuery
      (http.URL (addQuery sampleOpts
         (http.mkRequest "GET" (url.mkURL "/2/tweets/search/recent" "a=1")))).
Proof.
  apply (proj1 (addQuery_reads_parsed_query_only sampleOpts zeroUserOpts
                  (http.mkRequest "GET"
                     (url.mkURL "/2/tweets/search/recent" "a=1&b;c=2&%zz=3&&"))
                  (http.mkRequest "GET"
                     (url.mkURL "/2/tweets/search/recent" "a=1"))
                  ltac:(vm_compute; reflexivity))).
  left. vm_compute. discriminate.
Defined.

(** A pagination token and the expansions of a user lookup, in both orders. *)
Lemma addQuery_user_commute_witness :
  addQuery (onlyNextToken "abc")
    (addQuery_user
       (mkUserLookupOpts (L := stringLookups) ["pinned_tweet_id"] []
          ["created_at"])
       sampleRequest)
  = addQuery_user
      (mkUserLookupOpts (L := stringLookups) ["pinned_tweet_id"] []
         ["created_at"])
      (addQuery (onlyNextToken "abc") sampleRequest).
Proof.
  apply (addQuery_user_commute (onlyNextToken "abc")
           (mkUserLookupOpts (L := stringLookups) ["pinned_tweet_id"] []
              ["created_at"])
           sampleRequest); left; reflexivity.
Defined.

(** A body whose reading breaks off, under a status that is not 200. *)
Lemma Build_read_failure_witness :
  sampleBuild 500 sampleHeaders
    (mkReader [Byte.x7b] (Some (LibraryError "unexpected EOF")))
  = (None,
     Some (Errorf "tweet recent search response read: "
             (LibraryError "unexpected EOF"))).
Proof.
  apply (proj1 (Build_read_failure (P := samplePayloads)
           (sampleUnmarshal sampleError)
           (sampleUnmarshal [Byte.x7b; Byte.x7d]) sampleUnmarshalResponse
           (sampleRate "X-Rate-Limit-Limit")
           (sampleRate "X-App-Limit-24hour-Limit")
           (sampleRate "X-User-Limit-24hour-Limit")
           (sampleUnmarshal sampleError)
           (sampleUnmarshal [Byte.x7b; Byte.x7d]) sampleUnmarshalResponse
           (sampleRate "X-Rate-Limit-Limit")
           (sampleRate "X-App-Limit-24hour-Limit")
           (sampleRate "X-User-Limit-24hour-Limit")
           500 200 sampleHeaders ∅
           (mkReader [Byte.x7b] (Some (LibraryError "unexpected EOF")))
           (LibraryError "unexpected EOF") eq_refl)).
Defined.

(** A 200 whose body passes both passes. *)
Lemma Build_success_fields_witness :
  respRateLimit
    (mkTweetRecentSearchResponse (P := samplePayloads)
       (Some [Byte.x7b; Byte.x7d])
       (Some (mkTweetRecentSearchMeta "1460" "1450" 10 "b26v89c19zqg8o3f"))
       (Some (mkRateLimit 450 449 1700000000)))
  = sampleRate "X-Rate-Limit-Limit" sampleHeaders
  /\ Raw
       (mkTweetRecentSearchResponse (P := samplePayloads)
          (Some [Byte.x7b; Byte.x7d])
          (Some (mkTweetRecentSearchMeta "1460" "1450" 10 "b26v89c19zqg8o3f"))
          (Some (mkRateLimit 450 449 1700000000)))
     = Some (sampleUnmarshal (A := list Byte.byte) [Byte.x7b; Byte.x7d]
               [Byte.x7b; Byte.x7d] []).1.
Proof.
  pose proof (Build_success_fields (P := samplePayloads)
           (sampleUnmarshal sampleError)
           (sampleUnmarshal [Byte.x7b; Byte.x7d]) sampleUnmarshalMeta
           (sampleRate "X-Rate-Limit-Limit")
           (sampleRate "X-App-Limit-24hour-Limit")
           (sampleRate "X-User-Limit-24hour-Limit")
           200 sampleHeaders (mkReader [Byte.x7b; Byte.x7d] None)
           (mkTweetRecentSearchResponse (P := samplePayloads)
              (Some [Byte.x7b; Byte.x7d])
              (Some (mkTweetRecentSearchMeta "1460" "1450" 10
                       "b26v89c19zqg8o3f"))
              (Some (mkRateLimit 450 449 1700000000)))
           eq_refl) as (_ & Hrl & Hraw).
  split; [apply Hrl|apply Hraw]; reflexivity.
Defined.

(** The cap of the scenario of the spec. *)
Lemma max_results_decimal_witness :
  url.QueryEscape (strconv.Itoa 50) = "50"
  /\ Z.of_int <$> NilZero.int_of_string (strconv.Itoa 50) = Some 50%Z.
Proof. apply (max_results_decimal 50). reflexivity. Defined.
